(** * Streaming TTS audio assembly: src/utils/audio.ts and src/inworld/tts.ts

    A shallow embedding of the chunk decoder, the WAV assembler and the
    latency instrumentation of the Inworld TTS proxy, with the properties
    of the streaming pipeline proved about it.

    Conventions.
    - A Node [Buffer] is a [list byte].
    - A JavaScript string is the list of its UTF-16 code units ([N]).
    - A JavaScript number that the code uses as a size or a rate is a [Z];
      the range checks of the Buffer writers are written out.
    - A JavaScript exception is the [Throw] case of [result]; statements
      that assign variables before they raise run in the monad [M].
    - [TextDecoder] is the streaming UTF-8 decoder of the Encoding
      standard, byte by byte; [split], [pop], [trim] and [substring] are
      written out.
    - [JSON.parse], [Buffer.from] and [performance.now] are the fields of
      a [platform]; the theorems hold for every platform, and the module
      [Reference] gives one to run the model on concrete streams.  The
      base64 decoder of Node is written out as [base64_decode], for the
      property that [decodeBase64] is total.
    - A string is a list of any length.  The module [V8] adds the length
      that the engine allows to the read loop, for the statements that
      [streamSpeech] returns or raises.
    - The response body of [postStream] is the list of the byte arrays
      that [reader.read()] delivers before [done]; a failed request or an
      aborted stream never reaches the code modelled here. *)

From Stdlib Require Import String Ascii.
From Stdlib.Strings Require Import Byte.
From Stdlib Require Import List ZArith NArith Lia Bool.
Import ListNotations.

Open Scope Z_scope.

(* ================================================================== *)
(** * Exceptions *)
(* ================================================================== *)

Inductive exn : Type :=
| RangeError   (* ERR_OUT_OF_RANGE of the Buffer writers *)
| TypeError    (* property access on null, ERR_INVALID_ARG_TYPE *)
| SyntaxError. (* JSON.parse *)

Inductive result (A : Type) : Type :=
| Ok (a : A)
| Throw (e : exn).

Arguments Ok {A} a.
Arguments Throw {A} e.

Definition bind {A B : Type} (r : result A) (k : A -> result B) : result B :=
  match r with
  | Ok a => k a
  | Throw e => Throw e
  end.

Notation "x <- r ;; k" := (bind r (fun x => k))
  (at level 61, r at next level, right associativity).

(* ================================================================== *)
(** * JavaScript strings and Node buffers *)
(* ================================================================== *)

Definition code_unit := N.
Definition jsstring := list code_unit.

(** The code units of an ASCII literal of the source. *)
Definition lit (s : string) : jsstring :=
  map N_of_ascii (list_ascii_of_string s).

Fixpoint jsstring_eqb (a b : jsstring) : bool :=
  match a, b with
  | [], [] => true
  | x :: a', y :: b' => N.eqb x y && jsstring_eqb a' b'
  | _, _ => false
  end.

Definition Buffer := list byte.

(** [buf[i] = v] on a Uint8Array stores [v] modulo 256. *)
Definition byte_of_Z (v : Z) : byte :=
  match Byte.of_N (Z.to_N (v mod 256)) with
  | Some b => b
  | None => x00
  end.

Definition Z_of_byte (b : byte) : Z := Z.of_N (Byte.to_N b).

(** [Buffer.alloc(n)]: [n] zero bytes. *)
Definition Buffer_alloc (n : nat) : Buffer := repeat x00 n.

(** Overwrite [buf] from index [off] with [bs]; what does not fit is dropped
    and the length of [buf] never changes. *)
Fixpoint overwrite (buf : Buffer) (off : nat) (bs : list byte) : Buffer :=
  match buf with
  | [] => []
  | x :: buf' =>
      match off with
      | S off' => x :: overwrite buf' off' bs
      | O =>
          match bs with
          | [] => x :: buf'
          | b :: bs' => b :: overwrite buf' O bs'
          end
      end
  end.

(** [buf.write(s, offset)] for an ASCII literal [s]. *)
Definition Buffer_write (buf : Buffer) (s : string) (offset : nat) : Buffer :=
  overwrite buf offset (list_byte_of_string s).

(** [buf.writeUInt32LE(value, offset)]: a value outside [0, 2^32 - 1] or an
    offset that leaves no room for four bytes raises ERR_OUT_OF_RANGE. *)
Definition writeUInt32LE (buf : Buffer) (value : Z) (offset : nat)
  : result Buffer :=
  if (value <? 0) || (4294967295 <? value) then Throw RangeError
  else if (length buf <? offset + 4)%nat then Throw RangeError
  else Ok (overwrite buf offset
             [byte_of_Z value;
              byte_of_Z (Z.shiftr value 8);
              byte_of_Z (Z.shiftr value 16);
              byte_of_Z (Z.shiftr value 24)]).

(** [buf.writeUInt16LE(value, offset)]. *)
Definition writeUInt16LE (buf : Buffer) (value : Z) (offset : nat)
  : result Buffer :=
  if (value <? 0) || (65535 <? value) then Throw RangeError
  else if (length buf <? offset + 2)%nat then Throw RangeError
  else Ok (overwrite buf offset
             [byte_of_Z value; byte_of_Z (Z.shiftr value 8)]).

(** [buf.subarray(start)]. *)
Definition subarray (buf : Buffer) (start : nat) : Buffer := skipn start buf.

(** [buf[a:b]], the bytes at offsets [a], ..., [b - 1]. *)
Definition slice (buf : Buffer) (a b : nat) : Buffer :=
  firstn (b - a) (skipn a buf).

(** The little-endian value of a byte sequence. *)
Fixpoint little_endian (bs : list byte) : Z :=
  match bs with
  | [] => 0
  | b :: bs' => Z_of_byte b + 256 * little_endian bs'
  end.

(** [buf.toString('ascii', start, end)]: Node clears the top bit of every
    byte when it decodes as 'ascii'. *)
Definition toString_ascii (buf : Buffer) (start end_ : nat) : jsstring :=
  map (fun b => N.land (Byte.to_N b) 127) (slice buf start end_).

(* ================================================================== *)
(** * src/utils/audio.ts *)
(* ================================================================== *)

Definition hasWavHeader (buffer : Buffer) : bool :=
  if (length buffer <? 12)%nat then false
  else
    let riff := toString_ascii buffer 0 4 in
    let wave := toString_ascii buffer 8 12 in
    jsstring_eqb riff (lit "RIFF") && jsstring_eqb wave (lit "WAVE").

Definition stripWavHeader (buffer : Buffer) : Buffer :=
  if hasWavHeader buffer && (44 <? length buffer)%nat
  then subarray buffer 44
  else buffer.

(** The divisions by 8 are exact for the 16-bit mono format that
    [assembleWav] asks for. *)
Definition createWavHeader (dataLength sampleRate channels bitsPerSample : Z)
  : result Buffer :=
  let byteRate := (sampleRate * channels * bitsPerSample) / 8 in
  let blockAlign := (channels * bitsPerSample) / 8 in
  let fileSize := 36 + dataLength in
  let header := Buffer_alloc 44 in
  let header := Buffer_write header "RIFF" 0 in
  header <- writeUInt32LE header fileSize 4 ;;
  let header := Buffer_write header "WAVE" 8 in
  let header := Buffer_write header "fmt " 12 in
  header <- writeUInt32LE header 16 16 ;;
  header <- writeUInt16LE header 1 20 ;;
  header <- writeUInt16LE header channels 22 ;;
  header <- writeUInt32LE header sampleRate 24 ;;
  header <- writeUInt32LE header byteRate 28 ;;
  header <- writeUInt16LE header blockAlign 32 ;;
  header <- writeUInt16LE header bitsPerSample 34 ;;
  let header := Buffer_write header "data" 36 in
  header <- writeUInt32LE header dataLength 40 ;;
  Ok header.

(** [Buffer.concat(chunks)]. *)
Definition Buffer_concat (chunks : list Buffer) : Buffer := concat chunks.

Definition assembleWav (chunks : list Buffer) (sampleRate : Z)
  : result Buffer :=
  let rawData := Buffer_concat chunks in
  header <- createWavHeader (Z.of_nat (length rawData)) sampleRate 1 16 ;;
  Ok (Buffer_concat [header; rawData]).

(** The tag pair that [hasWavHeader] looks for, as the code reads it: the
    bytes at offsets 0..3 and 8..11 decoded as 'ascii'. *)
Definition has_tag_pair (B : Buffer) : Prop :=
  toString_ascii B 0 4 = lit "RIFF" /\ toString_ascii B 8 12 = lit "WAVE".

(** The header of a mono 16-bit file, byte by byte. *)
Definition wav_header_bytes (D R : Z) : Buffer :=
  let le4 v := [byte_of_Z v; byte_of_Z (Z.shiftr v 8);
                byte_of_Z (Z.shiftr v 16); byte_of_Z (Z.shiftr v 24)] in
  list_byte_of_string "RIFF" ++ le4 (36 + D) ++
  list_byte_of_string "WAVEfmt " ++
  [x10; x00; x00; x00; x01; x00; x01; x00] ++
  le4 R ++ le4 (R * 2) ++ [x02; x00; x10; x00] ++
  list_byte_of_string "data" ++ le4 D.

(* ================================================================== *)
(** * JavaScript values *)
(* ================================================================== *)

(** What [JSON.parse] returns and what a property read yields.  A number
    is kept as the decimal [m * 10^e] that the text denotes. *)
#[local] Unset Elimination Schemes.
Inductive value : Type :=
| VUndefined
| VNull
| VBool (b : bool)
| VNumber (m e : Z)
| VString (s : jsstring)
| VArray (elems : list value)
| VObject (props : list (jsstring * value)).
#[local] Set Elimination Schemes.

(** The own property [name] of an object; of two members with the same
    name the later one wins, as in [JSON.parse]. *)
Fixpoint lookup (name : jsstring) (props : list (jsstring * value))
  : option value :=
  match props with
  | [] => None
  | (k, v) :: rest =>
      match lookup name rest with
      | Some v' => Some v'
      | None => if jsstring_eqb k name then Some v else None
      end
  end.

(** [v.name], for a [name] that is neither an index, nor [length], nor
    inherited from a prototype (the code reads [result] and
    [audioContent]).  Reading a property of [null] or [undefined] raises
    a TypeError; a primitive or an array has no such property. *)
Definition get_property (v : value) (name : jsstring) : result value :=
  match v with
  | VUndefined | VNull => Throw TypeError
  | VObject props =>
      match lookup name props with
      | Some x => Ok x
      | None => Ok VUndefined
      end
  | _ => Ok VUndefined
  end.

(** The double nearest to [m * 10^e] is zero: [|m| * 10^e <= 2^-1075]. *)
Definition Number_is_zero (m e : Z) : bool :=
  if 0 <=? e then m =? 0
  else Z.abs m * 2 ^ 1075 <=? 10 ^ (- e).

Definition is_empty (s : jsstring) : bool :=
  match s with
  | [] => true
  | _ :: _ => false
  end.

(** ToBoolean. *)
Definition truthy (v : value) : bool :=
  match v with
  | VUndefined | VNull => false
  | VBool b => b
  | VNumber m e => negb (Number_is_zero m e)
  | VString s => negb (is_empty s)
  | VArray _ | VObject _ => true
  end.

(* ================================================================== *)
(** * Buffer.from(string, 'base64') *)
(* ================================================================== *)

(** The base64 decoder of Node on a string.  It reads every code unit
    modulo 256.  A character of the base64 alphabet or of the URL-safe
    alphabet contributes six bits; [=] ends the decoding; any other
    character is skipped. *)
Definition unbase64 (c : N) : option N :=
  (if (65 <=? c) && (c <=? 90) then Some (c - 65)
   else if (97 <=? c) && (c <=? 122) then Some (c - 71)
   else if (48 <=? c) && (c <=? 57) then Some (c + 4)
   else if (c =? 43) || (c =? 45) then Some 62
   else if (c =? 47) || (c =? 95) then Some 63
   else None)%N.

Fixpoint sextets (s : jsstring) : list N :=
  match s with
  | [] => []
  | u :: s' =>
      let c := (u mod 256)%N in
      if (c =? 61)%N then []
      else
        match unbase64 c with
        | Some v => v :: sextets s'
        | None => sextets s'
        end
  end.

Definition byte_of_N (n : N) : byte := byte_of_Z (Z.of_N n).

(** Four characters give three bytes; of an incomplete last group, two
    characters give one byte, three give two, and one gives none. *)
Fixpoint bytes_of_sextets (l : list N) : Buffer :=
  match l with
  | a :: b :: c :: d :: rest =>
      byte_of_N (a * 4 + b / 16) :: byte_of_N (b * 16 + c / 4)
        :: byte_of_N (c * 64 + d) :: bytes_of_sextets rest
  | [a; b; c] => [byte_of_N (a * 4 + b / 16); byte_of_N (b * 16 + c / 4)]
  | [a; b] => [byte_of_N (a * 4 + b / 16)]
  | _ => []
  end%N.

Definition base64_decode (s : jsstring) : Buffer :=
  bytes_of_sextets (sextets s).

(* ================================================================== *)
(** * The platform *)
(* ================================================================== *)

(** The functions of the JavaScript runtime that the pipeline calls and
    that the proofs leave open.
    - [JSON_parse]: [JSON.parse(text)], raising SyntaxError.
    - [Buffer_from_base64]: [Buffer.from(s, 'base64')] for a string [s];
      the decoder never raises, it drops what is not base64.  On Node it
      is [base64_decode].
    - [Buffer_from_object]: [Buffer.from(v, 'base64')] for an array or an
      object [v].
    - [performance_now k]: the reading of [performance.now()] during step
      [k] of the request, where step 0 is the start of the request, step
      [i] the pass of the line loop over the [i]-th complete line, and the
      step after the last line the end of the stream.  Readings are
      non-negative, in clock ticks. *)
Record platform : Type := {
  JSON_parse : jsstring -> result value;
  Buffer_from_base64 : jsstring -> Buffer;
  Buffer_from_object : value -> result Buffer;
  performance_now : nat -> N
}.

Definition monotone (clock : nat -> N) : Prop :=
  forall i j : nat, (i <= j)%nat -> (clock i <= clock j)%N.

(* ================================================================== *)
(** * TextDecoder: the streaming UTF-8 decoder of the Encoding standard *)
(* ================================================================== *)

Record TextDecoder : Type := {
  utf8_code_point : N;
  utf8_bytes_seen : N;
  utf8_bytes_needed : N;
  utf8_lower_boundary : N;
  utf8_upper_boundary : N;
  BOM_seen : bool
}.

(** [new TextDecoder()]. *)
Definition new_TextDecoder : TextDecoder :=
  {| utf8_code_point := 0; utf8_bytes_seen := 0; utf8_bytes_needed := 0;
     utf8_lower_boundary := 0x80; utf8_upper_boundary := 0xBF;
     BOM_seen := false |}.

Definition utf8_reset (d : TextDecoder) : TextDecoder :=
  {| utf8_code_point := 0; utf8_bytes_seen := 0; utf8_bytes_needed := 0;
     utf8_lower_boundary := 0x80; utf8_upper_boundary := 0xBF;
     BOM_seen := BOM_seen d |}.

Definition utf8_expect (d : TextDecoder) (cp needed lower upper : N)
  : TextDecoder :=
  {| utf8_code_point := cp; utf8_bytes_seen := utf8_bytes_seen d;
     utf8_bytes_needed := needed;
     utf8_lower_boundary := lower; utf8_upper_boundary := upper;
     BOM_seen := BOM_seen d |}.

Definition REPLACEMENT : N := 0xFFFD.

(** The handler when no byte of a sequence is pending.  The result is the
    new state and the code points emitted (U+FFFD for an error). *)
Definition utf8_first (d : TextDecoder) (byte : N) : TextDecoder * list N :=
  (if byte <=? 0x7F then (d, [byte])
   else if (0xC2 <=? byte) && (byte <=? 0xDF) then
     (utf8_expect d (N.land byte 0x1F) 1
        (utf8_lower_boundary d) (utf8_upper_boundary d), [])
   else if (0xE0 <=? byte) && (byte <=? 0xEF) then
     (utf8_expect d (N.land byte 0xF) 2
        (if byte =? 0xE0 then 0xA0 else utf8_lower_boundary d)
        (if byte =? 0xED then 0x9F else utf8_upper_boundary d), [])
   else if (0xF0 <=? byte) && (byte <=? 0xF4) then
     (utf8_expect d (N.land byte 0x7) 3
        (if byte =? 0xF0 then 0x90 else utf8_lower_boundary d)
        (if byte =? 0xF4 then 0x8F else utf8_upper_boundary d), [])
   else (d, [REPLACEMENT]))%N.

(** The handler on one byte.  A byte outside the expected range ends the
    pending sequence with an error and is handled again as a first byte. *)
Definition utf8_handler (d : TextDecoder) (byte : N) : TextDecoder * list N :=
  (if utf8_bytes_needed d =? 0 then utf8_first d byte
   else if (byte <? utf8_lower_boundary d) || (utf8_upper_boundary d <? byte)
   then
     let (d', out) := utf8_first (utf8_reset d) byte in
     (d', REPLACEMENT :: out)
   else
     let cp := N.lor (N.shiftl (utf8_code_point d) 6) (N.land byte 0x3F) in
     let seen := utf8_bytes_seen d + 1 in
     if seen =? utf8_bytes_needed d then (utf8_reset d, [cp])
     else
       ({| utf8_code_point := cp; utf8_bytes_seen := seen;
           utf8_bytes_needed := utf8_bytes_needed d;
           utf8_lower_boundary := 0x80; utf8_upper_boundary := 0xBF;
           BOM_seen := BOM_seen d |}, []))%N.

(** The UTF-16 code units of a code point. *)
Definition utf16 (cp : N) : jsstring :=
  (if cp <? 0x10000 then [cp]
   else
     let c := cp - 0x10000 in
     [0xD800 + N.shiftr c 10; 0xDC00 + N.land c 0x3FF])%N.

(** Serialising the emitted code points: the first code point of the
    stream is dropped when it is the byte order mark U+FEFF. *)
Definition serialize (d : TextDecoder) (cps : list N)
  : TextDecoder * jsstring :=
  match cps with
  | [] => (d, [])
  | c :: rest =>
      ({| utf8_code_point := utf8_code_point d;
          utf8_bytes_seen := utf8_bytes_seen d;
          utf8_bytes_needed := utf8_bytes_needed d;
          utf8_lower_boundary := utf8_lower_boundary d;
          utf8_upper_boundary := utf8_upper_boundary d;
          BOM_seen := true |},
       flat_map utf16
         (if negb (BOM_seen d) && (c =? 0xFEFF)%N then rest else cps))
  end.

Definition decode_byte (d : TextDecoder) (b : byte) : TextDecoder * jsstring :=
  let (d', cps) := utf8_handler d (Byte.to_N b) in
  serialize d' cps.

(** [decoder.decode(value, { stream: true })]: the state is kept for the
    next call and nothing is flushed. *)
Fixpoint TextDecoder_decode (d : TextDecoder) (value : list byte)
  : TextDecoder * jsstring :=
  match value with
  | [] => (d, [])
  | b :: rest =>
      let (d1, out) := decode_byte d b in
      let (d2, out') := TextDecoder_decode d1 rest in
      (d2, out ++ out')
  end.

(* ================================================================== *)
(** * String and array methods *)
(* ================================================================== *)

Definition LF : code_unit := 10%N.

(** [s.split('\n')]: never empty. *)
Fixpoint split_lines (s : jsstring) : list jsstring :=
  match s with
  | [] => [[]]
  | c :: s' =>
      if (c =? LF)%N then [] :: split_lines s'
      else
        match split_lines s' with
        | l :: ls => (c :: l) :: ls
        | [] => [[c]]
        end
  end.

(** [lines.pop()]: the array without its last element, and that element
    ([None] for [undefined], on an empty array). *)
Fixpoint Array_pop {A : Type} (l : list A) : list A * option A :=
  match l with
  | [] => ([], None)
  | x :: l' =>
      match l' with
      | [] => ([], Some x)
      | _ :: _ => let (r, o) := Array_pop l' in (x :: r, o)
      end
  end.

(** [x || ''] for a string or [undefined]. *)
Definition or_empty (x : option jsstring) : jsstring :=
  match x with
  | Some s => if is_empty s then [] else s
  | None => []
  end.

(** WhiteSpace and LineTerminator code units, which [trim] removes. *)
Definition is_whitespace (c : code_unit) : bool :=
  ((9 <=? c) && (c <=? 13) || (c =? 0x20) || (c =? 0xA0) || (c =? 0x1680)
   || (0x2000 <=? c) && (c <=? 0x200A) || (c =? 0x2028) || (c =? 0x2029)
   || (c =? 0x202F) || (c =? 0x205F) || (c =? 0x3000) || (c =? 0xFEFF))%N.

Fixpoint trimStart (s : jsstring) : jsstring :=
  match s with
  | [] => []
  | c :: s' => if is_whitespace c then trimStart s' else s
  end.

Definition trim (s : jsstring) : jsstring :=
  rev (trimStart (rev (trimStart s))).

(** [s.substring(0, n)]. *)
Definition substring0 (s : jsstring) (n : nat) : jsstring := firstn n s.

(* ================================================================== *)
(** * src/inworld/tts.ts: streamSpeech *)
(* ================================================================== *)

(** The variables that the body of the line loop reads and writes:
    [chunks], [firstChunkTime], the console, and the step of the request
    that the clock is read at. *)
Record accum : Type := {
  chunks : list Buffer;
  firstChunkTime : option N;
  warnings : list jsstring;
  tick : nat
}.

(** Statements that change these variables and may raise: the variables
    keep what was assigned before an exception. *)
Definition M (A : Type) : Type := accum -> result A * accum.

Definition ret {A : Type} (a : A) : M A := fun s => (Ok a, s).

Definition bindM {A B : Type} (m : M A) (k : A -> M B) : M B :=
  fun s =>
    match m s with
    | (Ok a, s') => k a s'
    | (Throw e, s') => (Throw e, s')
    end.

Definition lift {A : Type} (r : result A) : M A := fun s => (r, s).

Definition try_catch (m : M unit) (handler : exn -> M unit) : M unit :=
  fun s =>
    match m s with
    | (Ok a, s') => (Ok a, s')
    | (Throw e, s') => handler e s'
    end.

Notation "x <~ m ;; k" := (bindM m (fun x => k))
  (at level 61, m at next level, right associativity).

Definition elapse : M unit :=
  fun s => (Ok tt, {| chunks := chunks s; firstChunkTime := firstChunkTime s;
                      warnings := warnings s; tick := S (tick s) |}).

Definition push (audioData : Buffer) : M unit :=
  fun s => (Ok tt, {| chunks := chunks s ++ [audioData];
                      firstChunkTime := firstChunkTime s;
                      warnings := warnings s; tick := tick s |}).

Definition console_warn (text : jsstring) : M unit :=
  fun s => (Ok tt, {| chunks := chunks s; firstChunkTime := firstChunkTime s;
                      warnings := warnings s ++ [text]; tick := tick s |}).

Section StreamSpeech.

Variable P : platform.

(** [decodeBase64(base64)] is [Buffer.from(base64, 'base64')]; the type
    annotation [string] is not checked when the code runs. *)
Definition decodeBase64 (base64 : value) : result Buffer :=
  match base64 with
  | VString s => Ok (Buffer_from_base64 P s)
  | VArray _ | VObject _ => Buffer_from_object P base64
  | VUndefined | VNull | VBool _ | VNumber _ _ => Throw TypeError
  end.

(** [chunk.result?.audioContent]. *)
Definition result_audioContent (chunk : value) : result value :=
  r <- get_property chunk (lit "result") ;;
  match r with
  | VUndefined | VNull => Ok VUndefined
  | _ => get_property r (lit "audioContent")
  end.

(** [if (firstChunkTime === null) firstChunkTime = performance.now()]. *)
Definition mark_first_chunk : M unit :=
  fun s =>
    match firstChunkTime s with
    | None =>
        (Ok tt, {| chunks := chunks s;
                   firstChunkTime := Some (performance_now P (tick s));
                   warnings := warnings s; tick := tick s |})
    | Some _ => (Ok tt, s)
    end.

(** The body of the [try]. *)
Definition try_body (line : jsstring) : M unit :=
  chunk <~ lift (JSON_parse P line) ;;
  audioContent <~ lift (result_audioContent chunk) ;;
  if truthy audioContent then
    _ <~ mark_first_chunk ;;
    audioData <~ lift (decodeBase64 audioContent) ;;
    let audioData := stripWavHeader audioData in
    push audioData
  else ret tt.

(** One pass of [for (const line of lines)]. *)
Definition loop_body (line : jsstring) : M unit :=
  _ <~ elapse ;;
  if is_empty (trim line) then ret tt
  else try_catch (try_body line)
         (fun _ => console_warn (substring0 line 100)).

(** The catch clause handles every exception of the body, so a pass only
    changes the variables. *)
Definition process_line (a : accum) (line : jsstring) : accum :=
  snd (loop_body line a).

(** The variables of the read loop. *)
Record reader_state : Type := {
  decoder : TextDecoder;
  buffer : jsstring;
  acc : accum
}.

Definition initial_state : reader_state :=
  {| decoder := new_TextDecoder; buffer := [];
     acc := {| chunks := []; firstChunkTime := None;
               warnings := []; tick := 0 |} |}.

(** One pass of [while (true)] with a read that is not [done], for a
    string [buffer] that the engine can build (see [V8.read]). *)
Definition on_read (st : reader_state) (value : list byte) : reader_state :=
  let (d, text) := TextDecoder_decode (decoder st) value in
  let buffer := buffer st ++ text in
  let lines := split_lines buffer in
  let (lines, last) := Array_pop lines in
  {| decoder := d; buffer := or_empty last;
     acc := fold_left process_line lines (acc st) |}.

(** The read loop over the reads of the response body, up to [done]. *)
Definition streamSpeech_loop (reads : list (list byte)) : reader_state :=
  fold_left on_read reads initial_state.

Record StreamStats : Type := {
  timeToFirstChunk : Z;
  totalTime : Z
}.

Record output : Type := {
  audioBuffer : Buffer;
  stats : StreamStats
}.

(** [streamSpeech] from the response body of [postStream] on: [reads] are
    the values that [reader.read()] delivers before [done]. *)
Definition streamSpeech (reads : list (list byte)) (sampleRate : Z)
  : result output :=
  let startTime := performance_now P 0 in
  let st := streamSpeech_loop reads in
  let endTime := performance_now P (S (tick (acc st))) in
  audioBuffer <- assembleWav (chunks (acc st)) sampleRate ;;
  Ok {| audioBuffer := audioBuffer;
        stats :=
          {| timeToFirstChunk :=
               match firstChunkTime (acc st) with
               | Some t =>
                   if (t =? 0)%N then 0 else Z.of_N t - Z.of_N startTime
               | None => 0
               end;
             totalTime := Z.of_N endTime - Z.of_N startTime |} |}.

End StreamSpeech.

(** [config.defaults.sampleRate]. *)
Definition config_defaults_sampleRate : Z := 48000.

(* ================================================================== *)
(** * The length of a string *)
(* ================================================================== *)

(** [on_read] and [streamSpeech] above take a string for a list of any
    length.  The engine does not: V8 builds no string of more than
    [String::kMaxLength] code units, and the statement
    [buffer += decoder.decode(value, { stream: true })] stands outside the
    [try], so that its exception leaves [streamSpeech].  The module adds
    this to the read loop. *)
Module V8.

(** [String::kMaxLength] on a 64-bit platform, 2^29 - 24; Node shows it as
    [buffer.constants.MAX_STRING_LENGTH]. *)
Definition kMaxLength : N := 536870888.

(** What ends a call before it returns: an exception that nothing
    catches, or the refusal to build a string.  From [+=] the refusal is
    the RangeError "Invalid string length"; a decoder whose text alone is
    too long fails with an error of its own. *)
Inductive abrupt : Type :=
| Uncaught (e : exn)
| StringTooLong.

Inductive completion (A : Type) : Type :=
| Returns (a : A)
| Raises (why : abrupt).

Arguments Returns {A} a.
Arguments Raises {A} why.

Definition too_long (s : jsstring) : bool :=
  (kMaxLength <? N.of_nat (length s))%N.

Section ReadLoop.

Variable P : platform.

(** One pass of [while (true)] with a read that is not [done]. *)
Definition read (st : reader_state) (value : list byte)
  : completion reader_state :=
  let (d, text) := TextDecoder_decode (decoder st) value in
  let buffer := buffer st ++ text in
  if too_long buffer then Raises StringTooLong
  else
    let lines := split_lines buffer in
    let (lines, last) := Array_pop lines in
    Returns {| decoder := d; buffer := or_empty last;
               acc := fold_left (process_line P) lines (acc st) |}.

(** The read loop up to [done], or up to the read that raises. *)
Fixpoint read_loop (st : reader_state) (reads : list (list byte))
  : completion reader_state :=
  match reads with
  | [] => Returns st
  | value :: rest =>
      match read st value with
      | Returns st' => read_loop st' rest
      | Raises why => Raises why
      end
  end.

(** [streamSpeech] from the response body of [postStream] on. *)
Definition streamSpeech (reads : list (list byte)) (sampleRate : Z)
  : completion output :=
  let startTime := performance_now P 0 in
  match read_loop initial_state reads with
  | Raises why => Raises why
  | Returns st =>
      let endTime := performance_now P (S (tick (acc st))) in
      match assembleWav (chunks (acc st)) sampleRate with
      | Throw e => Raises (Uncaught e)
      | Ok audioBuffer =>
          Returns
            {| audioBuffer := audioBuffer;
               stats :=
                 {| timeToFirstChunk :=
                      match firstChunkTime (acc st) with
                      | Some t =>
                          if (t =? 0)%N then 0
                          else Z.of_N t - Z.of_N startTime
                      | None => 0
                      end;
                    totalTime := Z.of_N endTime - Z.of_N startTime |} |}
      end
  end.

(** Every string that line 77 builds on the way through [reads], from the
    state [st] on, has a length that the engine accepts. *)
Fixpoint fits_from (st : reader_state) (reads : list (list byte)) : bool :=
  match reads with
  | [] => true
  | value :: rest =>
      negb (too_long
              (buffer st ++ snd (TextDecoder_decode (decoder st) value)))
      && fits_from (on_read P st value) rest
  end.

Definition fits (reads : list (list byte)) : bool :=
  fits_from initial_state reads.

End ReadLoop.

End V8.

(* ================================================================== *)
(** * What a stream delivers *)
(* ================================================================== *)

(** The lines that the read loop hands to its body, and the text that it
    keeps for the next read, for a text received so far. *)
Definition complete_lines (text : jsstring) : list jsstring :=
  fst (Array_pop (split_lines text)).

Definition pending_line (text : jsstring) : jsstring :=
  or_empty (snd (Array_pop (split_lines text))).

(** The text that a fresh decoder makes of a byte stream, and its complete
    lines. *)
Definition decoded_text (stream : list byte) : jsstring :=
  snd (TextDecoder_decode new_TextDecoder stream).

Definition received_lines (stream : list byte) : list jsstring :=
  complete_lines (decoded_text stream).

(** The decoder between two characters. *)
Definition idle (bom : bool) : TextDecoder :=
  {| utf8_code_point := 0; utf8_bytes_seen := 0; utf8_bytes_needed := 0;
     utf8_lower_boundary := 0x80; utf8_upper_boundary := 0xBF;
     BOM_seen := bom |}.

(** The states that the decoder can reach: between two characters it is
    [idle]; inside a sequence the bytes already read have contributed a
    non-zero part of the code point, or the first byte has raised the
    lower boundary for the second one. *)
Definition decoder_wf (d : TextDecoder) : bool :=
  (if utf8_bytes_needed d =? 0
   then (utf8_code_point d =? 0) && (utf8_bytes_seen d =? 0)
        && (utf8_lower_boundary d =? 0x80) && (utf8_upper_boundary d =? 0xBF)
   else (0x80 <=? utf8_lower_boundary d) && (utf8_upper_boundary d <=? 0xBF)
        && (utf8_bytes_seen d <? utf8_bytes_needed d)
        && ((1 <=? utf8_code_point d)
            || (utf8_bytes_seen d =? 0) && (2 <=? utf8_bytes_needed d)
               && (0x90 <=? utf8_lower_boundary d)))%N.

(** The bytes of an unfinished sequence that the decoder holds. *)
Definition pending_bytes (d : TextDecoder) : nat :=
  if (utf8_bytes_needed d =? 0)%N then 0%nat
  else S (N.to_nat (utf8_bytes_seen d)).

(** A byte below 0x80 other than 0x0A. *)
Definition is_ascii_no_LF (b : byte) : bool :=
  (Byte.to_N b <=? 0x7F)%N && negb (Byte.eqb b x0a).

(** No line break among the code points, or code units, of a list. *)
Definition no_LF (l : list N) : bool :=
  forallb (fun c => negb (c =? LF)%N) l.

(** A stream is at the start of a line when it is empty or ends with the
    byte 0x0A. *)
Definition line_start (head : list byte) : Prop :=
  head = [] \/ exists h, head = h ++ [x0a].


Definition BOM : code_unit := 0xFEFF%N.

(** [!line.trim()]. *)
Definition blank (line : jsstring) : bool := is_empty (trim line).

(** What a pass of the loop body does with a line: nothing; a warning; a
    chunk pushed, after the first-chunk time is set if it was not; or the
    first-chunk time set and then a warning, when the audio content is
    truthy and [decodeBase64] raises. *)
Inductive outcome : Type :=
| Skip
| Warn
| Push (audioData : Buffer)
| MarkWarn.

Definition classify (P : platform) (line : jsstring) : outcome :=
  if blank line then Skip
  else
    match JSON_parse P line with
    | Throw _ => Warn
    | Ok chunk =>
        match result_audioContent chunk with
        | Throw _ => Warn
        | Ok audioContent =>
            if truthy audioContent then
              match decodeBase64 P audioContent with
              | Ok audioData => Push (stripWavHeader audioData)
              | Throw _ => MarkWarn
              end
            else Skip
        end
    end.

Definition mark (P : platform) (a : accum) : option N :=
  match firstChunkTime a with
  | None => Some (performance_now P (S (tick a)))
  | Some t => Some t
  end.

Definition apply_outcome (P : platform) (o : outcome) (w : jsstring)
  (a : accum) : accum :=
  match o with
  | Skip =>
      {| chunks := chunks a; firstChunkTime := firstChunkTime a;
         warnings := warnings a; tick := S (tick a) |}
  | Warn =>
      {| chunks := chunks a; firstChunkTime := firstChunkTime a;
         warnings := warnings a ++ [w]; tick := S (tick a) |}
  | Push audioData =>
      {| chunks := chunks a ++ [audioData]; firstChunkTime := mark P a;
         warnings := warnings a; tick := S (tick a) |}
  | MarkWarn =>
      {| chunks := chunks a; firstChunkTime := mark P a;
         warnings := warnings a ++ [w]; tick := S (tick a) |}
  end.



(** [JSON.parse] does not take U+FEFF for white space. *)
Definition rejects_BOM (P : platform) : Prop :=
  forall s : jsstring, exists e, JSON_parse P (BOM :: s) = Throw e.


(** The pass over the line pushes a chunk. *)
Definition decodes (P : platform) (line : jsstring) : bool :=
  match classify P line with
  | Push _ => true
  | _ => false
  end.

(** The step of the first line that yields a chunk, among lines handled
    from step [k] on. *)
Fixpoint first_decoded (P : platform) (lines : list jsstring) (k : nat)
  : option nat :=
  match lines with
  | [] => None
  | l :: rest =>
      if decodes P l then Some k else first_decoded P rest (S k)
  end.

(** The audio content of the record on the line, when there is one and it
    is truthy, is a string, as [TTSStreamChunk] declares it. *)
Definition audio_is_string (P : platform) (line : jsstring) : Prop :=
  forall chunk v,
    JSON_parse P line = Ok chunk ->
    result_audioContent chunk = Ok v ->
    truthy v = true ->
    exists s, v = VString s.

(** A 44-byte block that starts with the tag pair. *)
Definition tagged_block : Buffer :=
  list_byte_of_string "RIFF" ++ repeat x00 4 ++
  list_byte_of_string "WAVE" ++ repeat x00 32.

(* ================================================================== *)
(** * A reference platform *)
(* ================================================================== *)

(** An executable instance of [platform], to run the model on concrete
    streams: [JSON.parse] after ECMA-404, the base64 decoder of Node
    ([base64_decode]), and a clock given as a function. *)

Module Reference.

#[local] Open Scope N_scope.

Definition is_json_ws (c : code_unit) : bool :=
  (c =? 32) || (c =? 9) || (c =? 10) || (c =? 13).

Fixpoint skip_ws (s : jsstring) : jsstring :=
  match s with
  | [] => []
  | c :: s' => if is_json_ws c then skip_ws s' else s
  end.

Definition is_digit (c : code_unit) : bool := (48 <=? c) && (c <=? 57).

Definition hex_digit (c : code_unit) : option N :=
  if is_digit c then Some (c - 48)
  else if (97 <=? c) && (c <=? 102) then Some (c - 87)
  else if (65 <=? c) && (c <=? 70) then Some (c - 55)
  else None.

Definition hex4 (a b c d : code_unit) : option N :=
  match hex_digit a, hex_digit b, hex_digit c, hex_digit d with
  | Some x, Some y, Some z, Some w => Some (((x * 16 + y) * 16 + z) * 16 + w)
  | _, _, _, _ => None
  end.

(** The character that a one-letter escape denotes. *)
Definition escape (c : code_unit) : option code_unit :=
  if (c =? 34) || (c =? 92) || (c =? 47) then Some c
  else if c =? 98 then Some 8
  else if c =? 102 then Some 12
  else if c =? 110 then Some 10
  else if c =? 114 then Some 13
  else if c =? 116 then Some 9
  else None.

(** The characters of a string, after its opening quote, and what
    follows the closing quote. *)
Fixpoint string_chars (s : jsstring) : option (jsstring * jsstring) :=
  match s with
  | [] => None
  | c :: s' =>
      if c =? 34 then Some ([], s')
      else if c <? 32 then None
      else if c =? 92 then
        match s' with
        | [] => None
        | e :: s'' =>
            if e =? 117 then
              match s'' with
              | h1 :: h2 :: h3 :: h4 :: s3 =>
                  match hex4 h1 h2 h3 h4, string_chars s3 with
                  | Some u, Some (str, rest) => Some (u :: str, rest)
                  | _, _ => None
                  end
              | _ => None
              end
            else
              match escape e, string_chars s'' with
              | Some x, Some (str, rest) => Some (x :: str, rest)
              | _, _ => None
              end
        end
      else
        match string_chars s' with
        | Some (str, rest) => Some (c :: str, rest)
        | None => None
        end
  end.

(** The leading digits of [s], as a number and a count, and the rest. *)
Fixpoint digits (s : jsstring) (n : Z) (count : Z) : Z * Z * jsstring :=
  match s with
  | c :: s' =>
      if is_digit c then digits s' (10 * n + Z.of_N (c - 48))%Z (count + 1)%Z
      else (n, count, s)
  | [] => (n, count, s)
  end.

Definition number (s : jsstring) : option (value * jsstring) :=
  let (negative, s) :=
    match s with
    | c :: s' => if c =? 45 then (true, s') else (false, s)
    | [] => (false, s)
    end in
  let int_part :=
    match s with
    | c :: s' =>
        if c =? 48 then Some (0%Z, s')
        else if is_digit c then
          let '(n, _, rest) := digits s 0%Z 0%Z in Some (n, rest)
        else None
    | [] => None
    end in
  match int_part with
  | None => None
  | Some (n, s) =>
      let frac_part :=
        match s with
        | c :: s' =>
            if c =? 46 then
              let '(n', k, rest) := digits s' n 0%Z in
              if (k =? 0)%Z then None else Some (n', k, rest)
            else Some (n, 0%Z, s)
        | [] => Some (n, 0%Z, s)
        end in
      match frac_part with
      | None => None
      | Some (n, k, s) =>
          let exp_part :=
            match s with
            | c :: s' =>
                if (c =? 101) || (c =? 69) then
                  let (minus, s'') :=
                    match s' with
                    | g :: t =>
                        if g =? 45 then (true, t)
                        else if g =? 43 then (false, t)
                        else (false, s')
                    | [] => (false, s')
                    end in
                  let '(x, j, rest) := digits s'' 0%Z 0%Z in
                  if (j =? 0)%Z then None
                  else Some ((if minus then - x else x)%Z, rest)
                else Some (0%Z, s)
            | [] => Some (0%Z, s)
            end in
          match exp_part with
          | None => None
          | Some (x, s) =>
              Some (VNumber (if negative then - n else n)%Z (x - k)%Z, s)
          end
      end
  end.

(** [s] without the prefix [p], when it starts with it. *)
Fixpoint strip_prefix (p s : jsstring) : option jsstring :=
  match p, s with
  | [], _ => Some s
  | a :: p', b :: s' => if a =? b then strip_prefix p' s' else None
  | _ :: _, [] => None
  end.

Definition literal (name : string) (v : value) (s : jsstring)
  : option (value * jsstring) :=
  match strip_prefix (lit name) s with
  | Some rest => Some (v, rest)
  | None => None
  end.

(** A value, after optional white space, and what follows it. *)
Fixpoint parse_value (fuel : nat) (s : jsstring) {struct fuel}
  : option (value * jsstring) :=
  match fuel with
  | O => None
  | S fuel' =>
      match skip_ws s with
      | [] => None
      | c :: r =>
          if c =? 123 then
            match skip_ws r with
            | c' :: r' =>
                if c' =? 125 then Some (VObject [], r')
                else parse_members fuel' r []
            | [] => None
            end
          else if c =? 91 then
            match skip_ws r with
            | c' :: r' =>
                if c' =? 93 then Some (VArray [], r')
                else parse_elements fuel' r []
            | [] => None
            end
          else if c =? 34 then
            match string_chars r with
            | Some (str, rest) => Some (VString str, rest)
            | None => None
            end
          else if c =? 116 then literal "true" (VBool true) (c :: r)
          else if c =? 102 then literal "false" (VBool false) (c :: r)
          else if c =? 110 then literal "null" VNull (c :: r)
          else number (c :: r)
      end
  end

with parse_elements (fuel : nat) (s : jsstring) (seen : list value)
       {struct fuel} : option (value * jsstring) :=
  match fuel with
  | O => None
  | S fuel' =>
      match parse_value fuel' s with
      | Some (v, r) =>
          match skip_ws r with
          | c :: r' =>
              if c =? 44 then parse_elements fuel' r' (v :: seen)
              else if c =? 93 then Some (VArray (rev (v :: seen)), r')
              else None
          | [] => None
          end
      | None => None
      end
  end

with parse_members (fuel : nat) (s : jsstring)
       (seen : list (jsstring * value)) {struct fuel}
  : option (value * jsstring) :=
  match fuel with
  | O => None
  | S fuel' =>
      match skip_ws s with
      | q :: r =>
          if q =? 34 then
            match string_chars r with
            | Some (name, r1) =>
                match skip_ws r1 with
                | colon :: r2 =>
                    if colon =? 58 then
                      match parse_value fuel' r2 with
                      | Some (v, r3) =>
                          match skip_ws r3 with
                          | c :: r4 =>
                              if c =? 44 then
                                parse_members fuel' r4 ((name, v) :: seen)
                              else if c =? 125 then
                                Some (VObject (rev ((name, v) :: seen)), r4)
                              else None
                          | [] => None
                          end
                      | None => None
                      end
                    else None
                | [] => None
                end
            | None => None
            end
          else None
      | [] => None
      end
  end.

Definition parse_text (text : jsstring) : result value :=
  match parse_value (2 * length text + 2) text with
  | Some (v, rest) =>
      if is_empty (skip_ws rest) then Ok v else Throw SyntaxError
  | None => Throw SyntaxError
  end.

(** The characters of the base64 encoding of a buffer, to write the audio
    content of sample records. *)
Definition base64_char (n : N) : code_unit :=
  if n <? 26 then 65 + n
  else if n <? 52 then 71 + n
  else if n <? 62 then n - 4
  else if n =? 62 then 43
  else 47.

Fixpoint encode_base64 (b : Buffer) : jsstring :=
  match b with
  | x :: y :: z :: rest =>
      let n := to_N x * 65536 + to_N y * 256 + to_N z in
      base64_char (n / 262144) :: base64_char (n / 4096 mod 64)
        :: base64_char (n / 64 mod 64) :: base64_char (n mod 64)
        :: encode_base64 rest
  | [x; y] =>
      let n := to_N x * 65536 + to_N y * 256 in
      [base64_char (n / 262144); base64_char (n / 4096 mod 64);
       base64_char (n / 64 mod 64); 61]
  | [x] =>
      let n := to_N x * 65536 in
      [base64_char (n / 262144); base64_char (n / 4096 mod 64); 61; 61]
  | [] => []
  end.

(** [Buffer.from] of Node takes an array, or an object with a length, for
    a list of bytes.  The reference platform does not: it rejects every
    array and object, and so stands for Node only on records whose audio
    content is a string, a number, a boolean or [null], as all those of the
    sample streams are. *)
Definition no_object (v : value) : result Buffer :=
  Throw TypeError.

Definition node (clock : nat -> N) : platform :=
  {| JSON_parse := parse_text;
     Buffer_from_base64 := base64_decode;
     Buffer_from_object := no_object;
     performance_now := clock |}.

(** A clock that advances by 7 ticks a step, from 100. *)
Definition ticking (k : nat) : N := 100 + 7 * N.of_nat k.

(** A JSON text written with ['] for the double quote. *)
Definition jlit (s : string) : jsstring :=
  map (fun c => if c =? 39 then 34 else c) (lit s).

(** The bytes of such a text, which is ASCII. *)
Definition jbytes (s : string) : list byte :=
  map (fun b => if Byte.eqb b x27 then x22 else b) (list_byte_of_string s).

(** Sample records of a stream, without their newline. *)
Definition audio_AAEC : list byte :=
  jbytes "{'result':{'audioContent':'AAEC'}}".

Definition audio_BAUG : list byte :=
  jbytes "{'result':{'audioContent':'BAUG'}}".

Definition control_record : list byte := jbytes "{'result':{}}".

Definition audio_empty : list byte :=
  jbytes "{'result':{'audioContent':''}}".

Definition audio_not_base64 : list byte :=
  jbytes "{'result':{'audioContent':'!!!!'}}".

Definition audio_number : list byte :=
  jbytes "{'result':{'audioContent':5}}".

Definition broken_record : list byte := jbytes "{'result':{'audioCont".

(** The line of the stream that carries [audio], with its newline. *)
Definition record_of (audio : Buffer) : list byte :=
  jbytes "{'result':{'audioContent':'"
    ++ map byte_of_N (encode_base64 audio) ++ jbytes "'}}" ++ [x0a].

Definition pcm (n : nat) : Buffer := repeat x07 n.

(** A response of 2^29 letters [A] and no newline, in two reads of 2^28
    bytes. *)
Definition long_line : list (list byte) :=
  [repeat x41 (N.to_nat 268435456); repeat x41 (N.to_nat 268435456)].

End Reference.

(* ================================================================== *)
(** * Reading the loop line by line *)
(* ================================================================== *)

(** The chunk, if any, and the warning, if any, that a pass of the loop
    body over a line adds. *)
Definition pushed (P : platform) (line : jsstring) : list Buffer :=
  match classify P line with
  | Push audioData => [audioData]
  | _ => []
  end.

Definition warned (P : platform) (line : jsstring) : list jsstring :=
  match classify P line with
  | Warn | MarkWarn => [substring0 line 100]
  | _ => []
  end.

(** Space, tab and carriage return. *)
Definition is_blank_byte (b : byte) : bool :=
  Byte.eqb b x20 || Byte.eqb b x09 || Byte.eqb b x0d.

(* ================================================================== *)
(** * Promises, requests and files *)
(* ================================================================== *)

(** What a promise is rejected with: an exception of the runtime, or
    [new Error(message)]. *)
Inductive rejection : Type :=
| Exception (e : exn)
| Error (message : jsstring).

Inductive promise (A : Type) : Type :=
| Resolved (a : A)
| Rejected (r : rejection).

Arguments Resolved {A} a.
Arguments Rejected {A} r.

(** A request as [fetch] is given it; [body] is the value that
    [JSON.stringify] serialises. *)
Record request : Type := {
  url : jsstring;
  method : jsstring;
  headers : list (jsstring * jsstring);
  body : value
}.

(** A response as the code looks at it: [response.status], the promises
    [response.text()] and [response.json()], and [response.body], which
    is null or a stream of reads. *)
Record response : Type := {
  status : N;
  response_text : promise jsstring;
  response_json : promise value;
  response_body : option (list (list byte))
}.

(** [response.ok]. *)
Definition ok (r : response) : bool :=
  ((200 <=? status r) && (status r <=? 299))%N.

(** What an asynchronous function does to the world, in order. *)
Inductive effect : Type :=
| Fetch (r : request)
| ConsoleError (label detail : jsstring)
| Mkdir (path : jsstring)
| WriteFile (path : jsstring) (data : Buffer).

(** The world answers: [fetch(url, init)], [mkdir(path, { recursive: true })]
    and [writeFile(path, data)] of fs/promises, and [dirname] of path. *)
Record world : Type := {
  fetch : request -> promise response;
  mkdir : jsstring -> promise unit;
  writeFile : jsstring -> Buffer -> promise unit;
  dirname : jsstring -> jsstring
}.

(** An asynchronous function: the effects it has had, and the promise it
    has settled. *)
Definition async (A : Type) : Type := list effect * promise A.

Definition resolve {A : Type} (a : A) : async A := ([], Resolved a).

Definition throw {A : Type} (r : rejection) : async A := ([], Rejected r).

(** [await]: the rest of the function runs when the promise resolves. *)
Definition await {A B : Type} (m : async A) (k : A -> async B) : async B :=
  match m with
  | (done, Resolved a) => let (more, p) := k a in (done ++ more, p)
  | (done, Rejected r) => (done, Rejected r)
  end.

Notation "x <== m ;; k" := (await m (fun x => k))
  (at level 61, m at next level, right associativity).

Definition settle {A : Type} (r : result A) : async A :=
  match r with
  | Ok a => resolve a
  | Throw e => throw (Exception e)
  end.

Definition console_error (label detail : jsstring) : async unit :=
  ([ConsoleError label detail], Resolved tt).

(** The decimal digits of a number, as a template literal prints it. *)
Fixpoint digits_of (u : Decimal.uint) : jsstring :=
  match u with
  | Decimal.Nil => []
  | Decimal.D0 u' => 48%N :: digits_of u'
  | Decimal.D1 u' => 49%N :: digits_of u'
  | Decimal.D2 u' => 50%N :: digits_of u'
  | Decimal.D3 u' => 51%N :: digits_of u'
  | Decimal.D4 u' => 52%N :: digits_of u'
  | Decimal.D5 u' => 53%N :: digits_of u'
  | Decimal.D6 u' => 54%N :: digits_of u'
  | Decimal.D7 u' => 55%N :: digits_of u'
  | Decimal.D8 u' => 56%N :: digits_of u'
  | Decimal.D9 u' => 57%N :: digits_of u'
  end.

Definition decimal (n : N) : jsstring := digits_of (N.to_uint n).

(* ================================================================== *)
(** * src/config.ts *)
(* ================================================================== *)

(** [process.env.INWORLD_API_KEY]: a string, or undefined. *)
Record environment : Type := {
  INWORLD_API_KEY : option jsstring
}.

Definition config_baseUrl : jsstring := lit "https://api.inworld.ai/tts/v1".

Definition config_defaults_voiceId : jsstring :=
  lit "default-xnqy6v2hzjmsqzvhp21zvg__kennys_voice".

Definition config_defaults_modelId : jsstring := lit "inworld-tts-1.5-max".

Definition key_not_set : jsstring :=
  lit "INWORLD_API_KEY is not set. Please create a .env file with INWORLD_API_KEY=<your-base64-credentials>".

Definition assertApiKey (env : environment) : async jsstring :=
  match INWORLD_API_KEY env with
  | None => throw (Error key_not_set)
  | Some key => if is_empty key then throw (Error key_not_set) else resolve key
  end.

(* ================================================================== *)
(** * src/inworld/client.ts *)
(* ================================================================== *)

Section Client.

Variable env : environment.
Variable w : world.

Definition getAuthHeaders : async (list (jsstring * jsstring)) :=
  apiKey <== assertApiKey env ;;
  resolve [(lit "Content-Type", lit "application/json");
           (lit "Authorization", lit "Basic " ++ apiKey)].

(** [fetch(url, { method: 'POST', headers: getAuthHeaders(), body })]: the
    headers are computed before the request leaves. *)
Definition fetch_POST (endpoint : jsstring) (payload : value)
  : async response :=
  hs <== getAuthHeaders ;;
  let r := {| url := config_baseUrl ++ endpoint; method := lit "POST";
              headers := hs; body := payload |} in
  ([Fetch r], fetch w r).

(** The branch [if (!response.ok)], which both functions share. *)
Definition api_error {A : Type} (r : response) : async A :=
  errorBody <== ([], response_text r) ;;
  _ <== console_error (lit "API Error [" ++ decimal (status r) ++ lit "]:")
          errorBody ;;
  throw (Error (lit "Inworld API returned " ++ decimal (status r)
                  ++ lit ": " ++ errorBody)).

Definition post (endpoint : jsstring) (payload : value) : async value :=
  r <== fetch_POST endpoint payload ;;
  if negb (ok r) then api_error r
  else ([], response_json r).

Definition postStream (endpoint : jsstring) (payload : value)
  : async (list (list byte)) :=
  r <== fetch_POST endpoint payload ;;
  if negb (ok r) then api_error r
  else
    match response_body r with
    | None => throw (Error (lit "Response body is null"))
    | Some stream => resolve stream
    end.

(* ================================================================== *)
(** * src/utils/audio.ts and src/inworld/tts.ts: requests and files *)
(* ================================================================== *)

Definition writeAudioFile (filePath : jsstring) (data : Buffer)
  : async unit :=
  _ <== ([Mkdir (dirname w filePath)], mkdir w (dirname w filePath)) ;;
  ([WriteFile filePath data], writeFile w filePath data).

Variable P : platform.

Definition TTSRequest (text voiceId modelId : value) : value :=
  VObject [(lit "text", text); (lit "voiceId", voiceId);
           (lit "modelId", modelId)].

Definition TTSStreamRequest (text voiceId modelId : value) (sampleRate : Z)
  : value :=
  VObject [(lit "text", text); (lit "voiceId", voiceId);
           (lit "modelId", modelId);
           (lit "audio_config",
            VObject [(lit "audio_encoding", VString (lit "LINEAR16"));
                     (lit "sample_rate_hertz", VNumber sampleRate 0)])].

Definition generateSpeech (text voiceId modelId : value) : async Buffer :=
  r <== post (lit "/voice") (TTSRequest text voiceId modelId) ;;
  settle (audioContent <- get_property r (lit "audioContent") ;;
          decodeBase64 P audioContent).

Definition generateSpeechToFile (text : value) (outputPath : jsstring)
  (voiceId modelId : value) : async unit :=
  audioBuffer <== generateSpeech text voiceId modelId ;;
  writeAudioFile outputPath audioBuffer.

(** [streamSpeech] with its request: the response body of [postStream]
    goes through the read loop and the assembler. *)
Definition streamSpeech_async (text voiceId modelId : value) (sampleRate : Z)
  : async output :=
  stream <== postStream (lit "/voice:stream")
               (TTSStreamRequest text voiceId modelId sampleRate) ;;
  settle (streamSpeech P stream sampleRate).

(** The sample rate is not passed on: the default applies. *)
Definition streamSpeechToFile (text : value) (outputPath : jsstring)
  (voiceId modelId : value) : async StreamStats :=
  r <== streamSpeech_async text voiceId modelId config_defaults_sampleRate ;;
  _ <== writeAudioFile outputPath (audioBuffer r) ;;
  resolve (stats r).

End Client.

(** The request that the client sends when the key is [key]. *)
Definition authorised_POST (key endpoint : jsstring) (payload : value)
  : request :=
  {| url := config_baseUrl ++ endpoint; method := lit "POST";
     headers := [(lit "Content-Type", lit "application/json");
                 (lit "Authorization", lit "Basic " ++ key)];
     body := payload |}.

Definition has_key (env : environment) (key : jsstring) : Prop :=
  INWORLD_API_KEY env = Some key /\ key <> [].

Definition no_key (env : environment) : Prop :=
  INWORLD_API_KEY env = None \/ INWORLD_API_KEY env = Some [].

Definition is_Fetch (e : effect) : bool :=
  match e with
  | Fetch _ => true
  | _ => false
  end.

Definition touches_files (e : effect) : bool :=
  match e with
  | Mkdir _ | WriteFile _ _ => true
  | _ => false
  end.

(** What the client does with a response that is not ok. *)
Definition HTTP_error {A : Type} (sent : request) (r : response) : async A :=
  match response_text r with
  | Resolved errorBody =>
      ([Fetch sent;
        ConsoleError (lit "API Error [" ++ decimal (status r) ++ lit "]:")
          errorBody],
       Rejected (Error (lit "Inworld API returned " ++ decimal (status r)
                          ++ lit ": " ++ errorBody)))
  | Rejected x => ([Fetch sent], Rejected x)
  end.

(** A service for the examples: it answers every request alike, and the
    file system accepts every directory and file. *)
Module Service.

Definition key_set : environment :=
  {| INWORLD_API_KEY := Some (lit "a2V5OnNlY3JldA==") |}.

Definition key_unset : environment := {| INWORLD_API_KEY := None |}.

Definition key_empty : environment := {| INWORLD_API_KEY := Some [] |}.

(** What is left of a reversed path after its last segment. *)
Fixpoint after_slash (reversed : jsstring) : jsstring :=
  match reversed with
  | [] => []
  | c :: rest => if (c =? 47)%N then rest else after_slash rest
  end.

(** The directory of a relative path such as [out/a.wav]. *)
Definition parent (path : jsstring) : jsstring :=
  match after_slash (rev path) with
  | [] => lit "."
  | d => rev d
  end.

Definition answering (r : response) : world :=
  {| fetch := fun _ => Resolved r;
     mkdir := fun _ => Resolved tt;
     writeFile := fun _ _ => Resolved tt;
     dirname := parent |}.

Definition streaming (reads : list (list byte)) : response :=
  {| status := 200;
     response_text := Rejected (Error (lit "body stream already read"));
     response_json := Rejected (Error (lit "body stream already read"));
     response_body := Some reads |}.

Definition json (v : value) : response :=
  {| status := 200;
     response_text := Rejected (Error (lit "body stream already read"));
     response_json := Resolved v;
     response_body := Some [] |}.

Definition unauthorized : response :=
  {| status := 401;
     response_text := Resolved (lit "invalid credentials");
     response_json := Rejected (Exception SyntaxError);
     response_body := Some [] |}.

Definition hello : value := VString (lit "hello").
Definition voice : value := VString config_defaults_voiceId.
Definition model : value := VString config_defaults_modelId.

End Service.

(* ================================================================== *)
(** * The WAV header *)
(* ================================================================== *)

Lemma Z_of_byte_of_Z (v : Z) : Z_of_byte (byte_of_Z v) = v mod 256.
Proof.
  unfold Z_of_byte, byte_of_Z.
  assert (Hr : 0 <= v mod 256 < 256) by (apply Z.mod_pos_bound; lia).
  destruct (Byte.of_N (Z.to_N (v mod 256))) as [b|] eqn:E.
  - apply Byte.to_of_N in E. rewrite E. lia.
  - apply Byte.of_N_None_iff in E. lia.
Qed.

Lemma little_endian_4 (v : Z) :
  0 <= v <= 4294967295 ->
  little_endian [byte_of_Z v; byte_of_Z (Z.shiftr v 8);
                 byte_of_Z (Z.shiftr v 16); byte_of_Z (Z.shiftr v 24)] = v.
Proof.
  intros Hv. cbn [little_endian].
  rewrite !Z_of_byte_of_Z, !Z.shiftr_div_pow2 by lia.
  change (2 ^ 8) with 256. change (2 ^ 16) with 65536.
  change (2 ^ 24) with 16777216.
  Z.div_mod_to_equations. lia.
Qed.

Lemma overwrite_length (buf : Buffer) (off : nat) (bs : list byte) :
  length (overwrite buf off bs) = length buf.
Proof.
  revert off bs. induction buf as [|x buf IH]; intros off bs; [reflexivity|].
  destruct off as [|off]; cbn [overwrite].
  - destruct bs; cbn [length]; [reflexivity | now rewrite IH].
  - cbn [length]. now rewrite IH.
Qed.

Lemma writeUInt32LE_ok (buf : Buffer) (v : Z) (off : nat) :
  0 <= v <= 4294967295 -> (off + 4 <= length buf)%nat ->
  writeUInt32LE buf v off =
  Ok (overwrite buf off
        [byte_of_Z v; byte_of_Z (Z.shiftr v 8);
         byte_of_Z (Z.shiftr v 16); byte_of_Z (Z.shiftr v 24)]).
Proof.
  intros Hv Hoff. unfold writeUInt32LE.
  replace ((v <? 0) || (4294967295 <? v)) with false
    by (symmetry; apply orb_false_iff; split; apply Z.ltb_ge; lia).
  replace (length buf <? off + 4)%nat with false
    by (symmetry; apply Nat.ltb_ge; lia).
  reflexivity.
Qed.

Lemma writeUInt32LE_range (buf : Buffer) (v : Z) (off : nat) :
  ~ 0 <= v <= 4294967295 -> writeUInt32LE buf v off = Throw RangeError.
Proof.
  intros Hv. unfold writeUInt32LE.
  replace ((v <? 0) || (4294967295 <? v)) with true; [reflexivity|].
  symmetry. apply orb_true_iff.
  destruct (Z.ltb_spec v 0); [now left | right]. apply Z.ltb_lt. lia.
Qed.

Lemma in_range_false (v m : Z) :
  0 <= v <= m -> (v <? 0) || (m <? v) = false.
Proof.
  intros Hv. apply orb_false_iff; split; apply Z.ltb_ge; lia.
Qed.

Ltac write_step :=
  rewrite in_range_false by lia;
  cbn -[byte_of_Z Z.shiftr Z.ltb Z.add Z.mul].

Lemma createWavHeader_mono16 (D R : Z) :
  0 <= D <= 4294967259 -> 0 <= R <= 2147483647 ->
  createWavHeader D R 1 16 = Ok (wav_header_bytes D R).
Proof.
  intros HD HR. unfold createWavHeader, writeUInt32LE, writeUInt16LE.
  replace (R * 1 * 16 / 8) with (R * 2)
    by (replace (R * 1 * 16) with (R * 2 * 8) by lia;
        symmetry; apply Z.div_mul; lia).
  change (1 * 16 / 8) with 2.
  cbn -[byte_of_Z Z.shiftr Z.ltb Z.add Z.mul].
  repeat write_step.
  reflexivity.
Qed.

Lemma out_of_range_true (v m : Z) :
  ~ 0 <= v <= m -> (v <? 0) || (m <? v) = true.
Proof.
  intros Hv. apply orb_true_iff.
  destruct (Z.ltb_spec v 0); [now left | right]. apply Z.ltb_lt. lia.
Qed.

Lemma createWavHeader_out_of_range (D R : Z) :
  0 <= D ->
  ~ (D <= 4294967259 /\ 0 <= R <= 2147483647) ->
  createWavHeader D R 1 16 = Throw RangeError.
Proof.
  intros HD Hr. unfold createWavHeader, writeUInt32LE, writeUInt16LE.
  replace (R * 1 * 16 / 8) with (R * 2)
    by (replace (R * 1 * 16) with (R * 2 * 8) by lia;
        symmetry; apply Z.div_mul; lia).
  change (1 * 16 / 8) with 2.
  cbn -[byte_of_Z Z.shiftr Z.ltb Z.add Z.mul].
  destruct (Z_le_gt_dec D 4294967259), (Z_lt_le_dec R 0),
    (Z_le_gt_dec R 2147483647), (Z_le_gt_dec R 4294967295);
    try (exfalso; lia);
    repeat write_step; rewrite out_of_range_true by lia; reflexivity.
Qed.

Lemma slice_app_l (a b : Buffer) (i j : nat) :
  (j <= length a)%nat -> slice (a ++ b) i j = slice a i j.
Proof.
  intros Hj. unfold slice.
  destruct (Nat.le_gt_cases i (length a)) as [Hi|Hi].
  - rewrite skipn_app.
    replace (i - length a)%nat with 0%nat by lia. cbn [skipn].
    rewrite firstn_app, length_skipn.
    replace (j - i - (length a - i))%nat with 0%nat by lia.
    cbn [firstn]. now rewrite app_nil_r.
  - replace (j - i)%nat with 0%nat by lia. reflexivity.
Qed.

Lemma wav_header_bytes_length (D R : Z) :
  length (wav_header_bytes D R) = 44%nat.
Proof. reflexivity. Qed.

(** ** Header recognition and stripping *)

Lemma jsstring_eqb_eq (a b : jsstring) : jsstring_eqb a b = true <-> a = b.
Proof.
  revert b. induction a as [|x a IH]; intros [|y b]; cbn [jsstring_eqb];
    try (split; [discriminate | discriminate]); [tauto|].
  rewrite andb_true_iff, N.eqb_eq, IH.
  split; [intros [-> ->]; reflexivity | intros [= -> ->]; auto].
Qed.

Lemma hasWavHeader_iff (B : Buffer) :
  hasWavHeader B = true <-> has_tag_pair B.
Proof.
  unfold hasWavHeader, has_tag_pair.
  destruct (Nat.ltb_spec (length B) 12) as [Hlen|Hlen].
  - split; [discriminate|]. intros [_ Hw]. exfalso.
    apply (f_equal (@length _)) in Hw.
    unfold toString_ascii, slice in Hw.
    rewrite length_map, length_firstn, length_skipn in Hw.
    change (length (lit "WAVE")) with 4%nat in Hw.
    change (12 - 8)%nat with 4%nat in Hw. lia.
  - now rewrite andb_true_iff, !jsstring_eqb_eq.
Qed.

Lemma stripWavHeader_strips (B : Buffer) :
  has_tag_pair B -> (44 < length B)%nat -> stripWavHeader B = skipn 44 B.
Proof.
  intros Ht Hl. unfold stripWavHeader, subarray.
  apply hasWavHeader_iff in Ht. rewrite Ht.
  apply Nat.ltb_lt in Hl. now rewrite Hl.
Qed.

Lemma stripWavHeader_keeps (B : Buffer) :
  ~ has_tag_pair B \/ (length B <= 44)%nat -> stripWavHeader B = B.
Proof.
  intros H. unfold stripWavHeader.
  destruct (hasWavHeader B) eqn:Eh; [|reflexivity].
  destruct (Nat.ltb_spec 44 (length B)) as [Hl|Hl]; [|reflexivity].
  destruct H as [H|H]; [|lia].
  exfalso. apply H. now apply hasWavHeader_iff.
Qed.

(** ** The assembled file *)

Lemma assembleWav_ok (chunks : list Buffer) (R : Z) :
  Z.of_nat (length (Buffer_concat chunks)) <= 4294967259 ->
  0 <= R <= 2147483647 ->
  assembleWav chunks R =
  Ok (wav_header_bytes (Z.of_nat (length (Buffer_concat chunks))) R
        ++ Buffer_concat chunks).
Proof.
  intros HD HR. unfold assembleWav.
  rewrite createWavHeader_mono16 by lia.
  cbn [bind Buffer_concat concat]. now rewrite app_nil_r.
Qed.

Lemma assembleWav_out_of_range (chunks : list Buffer) (R : Z) :
  ~ (Z.of_nat (length (Buffer_concat chunks)) <= 4294967259
     /\ 0 <= R <= 2147483647) ->
  assembleWav chunks R = Throw RangeError.
Proof.
  intros H. unfold assembleWav.
  rewrite createWavHeader_out_of_range by (try lia; exact H).
  reflexivity.
Qed.

Lemma header_fields (D R : Z) (data : Buffer) :
  0 <= D <= 4294967259 -> 0 <= R <= 2147483647 ->
  let W := wav_header_bytes D R ++ data in
  little_endian (slice W 4 8) = 36 + D /\
  little_endian (slice W 40 44) = D /\
  little_endian (slice W 24 28) = R /\
  little_endian (slice W 28 32) = R * 2.
Proof.
  intros HD HR W. subst W.
  rewrite !slice_app_l by (rewrite wav_header_bytes_length; lia).
  unfold slice, wav_header_bytes.
  cbn [list_byte_of_string app skipn firstn Nat.sub].
  repeat split; apply little_endian_4; lia.
Qed.

(** C1 (as amended).  For every list of chunk buffers whose total length
    [D] is at most 2^32 - 37 and every sample rate [R] with
    0 <= R <= 2^31 - 1, [assembleWav] returns a buffer [W] in which bytes
    4..8 read little-endian are 36 + D, bytes 40..44 are D, bytes 24..28
    are R and bytes 28..32 are R * 2, and whose length is 44 + D. *)
Theorem assembleWav_header_arithmetic (chunks : list Buffer) (R : Z) :
  let D := Z.of_nat (length (Buffer_concat chunks)) in
  D <= 4294967259 -> 0 <= R <= 2147483647 ->
  exists W : Buffer,
    assembleWav chunks R = Ok W /\
    little_endian (slice W 4 8) = 36 + D /\
    little_endian (slice W 40 44) = D /\
    little_endian (slice W 24 28) = R /\
    little_endian (slice W 28 32) = R * 2 /\
    Z.of_nat (length W) = 44 + D.
Proof.
  intros D HD HR. eexists. split; [apply assembleWav_ok; assumption|].
  destruct (header_fields D R (Buffer_concat chunks)) as (H1 & H2 & H3 & H4);
    [subst D; lia | lia |].
  repeat split; try assumption.
  rewrite length_app, wav_header_bytes_length. subst D. lia.
Qed.

Lemma assembleWav_header_arithmetic_witness :
  exists W : Buffer,
    assembleWav [[x01; x02]; [x03]] 48000 = Ok W /\
    little_endian (slice W 4 8) = 36 + 3 /\
    little_endian (slice W 40 44) = 3 /\
    little_endian (slice W 24 28) = 48000 /\
    little_endian (slice W 28 32) = 48000 * 2 /\
    Z.of_nat (length W) = 44 + 3.
Proof.
  apply (assembleWav_header_arithmetic [[x01; x02]; [x03]] 48000).
  - vm_compute. discriminate.
  - lia.
Defined.

(** C1 as stated fails: at the sample rate 2^31 the byte rate 2^32 does
    not fit the 32-bit field, [writeUInt32LE] raises, and no buffer is
    returned. *)
Lemma assembleWav_rate_2147483648_raises :
  assembleWav [] 2147483648 = Throw RangeError /\
  ~ (exists W : Buffer,
       assembleWav [] 2147483648 = Ok W /\
       little_endian (slice W 4 8) = 36 + 0 /\
       little_endian (slice W 40 44) = 0 /\
       little_endian (slice W 24 28) = 2147483648 /\
       little_endian (slice W 28 32) = 2147483648 * 2 /\
       Z.of_nat (length W) = 44 + 0).
Proof.
  assert (E : assembleWav [] 2147483648 = Throw RangeError)
    by (vm_compute; reflexivity).
  split; [exact E|]. intros (W & HW & _). rewrite E in HW. discriminate.
Qed.

(** ** Stripping twice *)

Lemma stripWavHeader_twice (B : Buffer) :
  stripWavHeader (stripWavHeader B) = stripWavHeader B <->
  ~ (has_tag_pair B /\ has_tag_pair (skipn 44 B) /\ (88 < length B)%nat).
Proof.
  destruct (hasWavHeader B) eqn:EB.
  - destruct (Nat.ltb_spec 44 (length B)) as [HlB|HlB].
    + assert (ES : stripWavHeader B = skipn 44 B)
        by (apply stripWavHeader_strips; [now apply hasWavHeader_iff | lia]).
      rewrite ES.
      destruct (hasWavHeader (skipn 44 B)) eqn:ES2.
      * destruct (Nat.ltb_spec 88 (length B)) as [Hl2|Hl2].
        -- split.
           ++ intros Heq. exfalso.
              rewrite stripWavHeader_strips in Heq;
                [| now apply hasWavHeader_iff | rewrite length_skipn; lia].
              apply (f_equal (@length _)) in Heq.
              rewrite !length_skipn in Heq. lia.
           ++ intros Hn. exfalso. apply Hn.
              repeat split; try (now apply hasWavHeader_iff); lia.
        -- split; [intros _ (_ & _ & Hl); lia|]. intros _.
           apply stripWavHeader_keeps. right. rewrite length_skipn. lia.
      * split.
        -- intros _ (_ & Ht & _). apply hasWavHeader_iff in Ht. congruence.
        -- intros _. apply stripWavHeader_keeps. left.
           intros Ht. apply hasWavHeader_iff in Ht. congruence.
    + assert (ES : stripWavHeader B = B)
        by (apply stripWavHeader_keeps; right; lia).
      rewrite !ES. split; [intros _ (_ & _ & Hl); lia | reflexivity].
  - assert (ES : stripWavHeader B = B).
    { apply stripWavHeader_keeps. left. intros Ht.
      apply hasWavHeader_iff in Ht. congruence. }
    rewrite !ES. split; [|reflexivity].
    intros _ (Ht & _). apply hasWavHeader_iff in Ht. congruence.
Qed.

(** C2 (as amended).  The tags are compared as the code reads them, after
    [toString('ascii')] has cleared the top bit of each byte.  For every
    buffer B: with the tag pair and more than 44 bytes, stripping removes
    exactly the first 44 bytes; without the pair, or with at most 44 bytes,
    B is returned unchanged; and stripping twice is stripping once exactly
    when B does not carry a second tag pair at offset 44 followed by more
    than 44 bytes. *)
Theorem stripWavHeader_spec (B : Buffer) :
  (has_tag_pair B /\ (44 < length B)%nat -> stripWavHeader B = skipn 44 B) /\
  (~ has_tag_pair B \/ (length B <= 44)%nat -> stripWavHeader B = B) /\
  (stripWavHeader (stripWavHeader B) = stripWavHeader B <->
   ~ (has_tag_pair B /\ has_tag_pair (skipn 44 B) /\ (88 < length B)%nat)).
Proof.
  split; [|split].
  - intros [Ht Hl]. now apply stripWavHeader_strips.
  - apply stripWavHeader_keeps.
  - apply stripWavHeader_twice.
Qed.

Lemma stripWavHeader_spec_witness :
  stripWavHeader (tagged_block ++ [x01; x02; x03]) = [x01; x02; x03] /\
  stripWavHeader [x01; x02; x03] = [x01; x02; x03].
Proof.
  split.
  - apply (proj1 (stripWavHeader_spec (tagged_block ++ [x01; x02; x03]))).
    split; [split; reflexivity | vm_compute; lia].
  - apply (proj1 (proj2 (stripWavHeader_spec [x01; x02; x03]))).
    right. vm_compute. lia.
Defined.

(** C2 as stated fails: stripping is not idempotent on a buffer that
    carries the tag pair at offset 0 and again at offset 44. *)
Lemma stripWavHeader_not_idempotent :
  stripWavHeader (stripWavHeader (tagged_block ++ tagged_block ++ [x01]))
  <> stripWavHeader (tagged_block ++ tagged_block ++ [x01]).
Proof. vm_compute. discriminate. Qed.

(** A buffer whose first bytes are the tag letters with the top bit set has
    none of the tag bytes at offset 0, and is stripped all the same. *)
Lemma stripWavHeader_ignores_top_bit :
  stripWavHeader ([xd2; xc9; xc6; xc6] ++ skipn 4 tagged_block ++ [x01])
  = [x01].
Proof. reflexivity. Qed.

(* ================================================================== *)
(** * Lines *)
(* ================================================================== *)

Lemma split_lines_no_LF (t : jsstring) :
  ~ In LF t -> split_lines t = [t].
Proof.
  induction t as [|c t IH]; intros Hn; [reflexivity|].
  cbn [split_lines]. destruct (N.eqb_spec c LF) as [->|Hc].
  - exfalso. apply Hn. now left.
  - rewrite IH; [reflexivity|]. intros Hin. apply Hn. now right.
Qed.

Lemma split_lines_not_nil (t : jsstring) : split_lines t <> [].
Proof.
  destruct t as [|c t]; cbn [split_lines]; [discriminate|].
  destruct (c =? LF)%N; [discriminate|].
  destruct (split_lines t); discriminate.
Qed.

Lemma split_lines_line (l rest : jsstring) :
  ~ In LF l -> split_lines (l ++ LF :: rest) = l :: split_lines rest.
Proof.
  induction l as [|c l IH]; intros Hn.
  - cbn [app split_lines]. now rewrite N.eqb_refl.
  - cbn [app split_lines]. destruct (N.eqb_spec c LF) as [->|Hc].
    + exfalso. apply Hn. now left.
    + rewrite IH; [reflexivity|]. intros Hin. apply Hn. now right.
Qed.

Lemma text_cases (t : jsstring) :
  ~ In LF t \/
  exists l rest : jsstring, t = l ++ LF :: rest /\ ~ In LF l.
Proof.
  induction t as [|c t IH]; [left; intros []|].
  destruct (N.eqb_spec c LF) as [->|Hc].
  - right. exists [], t. split; [reflexivity | intros []].
  - destruct IH as [Hn | (l & rest & -> & Hl)].
    + left. intros [H|H]; [congruence | contradiction].
    + right. exists (c :: l), rest. split; [reflexivity|].
      intros [H|H]; [congruence | contradiction].
Qed.

(** Induction over a text line by line. *)
Lemma lines_ind (Q : jsstring -> Prop) :
  (forall t, ~ In LF t -> Q t) ->
  (forall l rest, ~ In LF l -> Q rest -> Q (l ++ LF :: rest)) ->
  forall t, Q t.
Proof.
  intros Hbase Hstep t.
  remember (length t) as n eqn:Hlen.
  revert t Hlen. induction n as [n IH] using lt_wf_ind. intros t Hlen.
  destruct (text_cases t) as [Hn | (l & rest & -> & Hl)].
  - now apply Hbase.
  - apply Hstep; [assumption|].
    apply (IH (length rest)); [|reflexivity].
    subst n. rewrite length_app. cbn [length]. lia.
Qed.

Lemma Array_pop_cons {A : Type} (x : A) (l : list A) :
  l <> [] ->
  Array_pop (x :: l) = (x :: fst (Array_pop l), snd (Array_pop l)).
Proof.
  intros Hl. destruct l as [|y l]; [contradiction|].
  cbn [Array_pop]. destruct (match l with [] => _ | _ :: _ => _ end).
  reflexivity.
Qed.

Lemma complete_lines_no_LF (t : jsstring) :
  ~ In LF t -> complete_lines t = [].
Proof.
  intros Hn. unfold complete_lines. now rewrite split_lines_no_LF.
Qed.

Lemma pending_line_no_LF (t : jsstring) :
  ~ In LF t -> pending_line t = t.
Proof.
  intros Hn. unfold pending_line. rewrite split_lines_no_LF by assumption.
  cbn [Array_pop snd or_empty]. now destruct t.
Qed.

Lemma complete_lines_line (l rest : jsstring) :
  ~ In LF l ->
  complete_lines (l ++ LF :: rest) = l :: complete_lines rest.
Proof.
  intros Hn. unfold complete_lines.
  rewrite split_lines_line by assumption.
  now rewrite Array_pop_cons by apply split_lines_not_nil.
Qed.

Lemma pending_line_line (l rest : jsstring) :
  ~ In LF l -> pending_line (l ++ LF :: rest) = pending_line rest.
Proof.
  intros Hn. unfold pending_line.
  rewrite split_lines_line by assumption.
  now rewrite Array_pop_cons by apply split_lines_not_nil.
Qed.

Lemma pending_line_has_no_LF (t : jsstring) : ~ In LF (pending_line t).
Proof.
  induction t as [t Hn | l rest Hl IH] using lines_ind.
  - now rewrite pending_line_no_LF.
  - now rewrite pending_line_line.
Qed.

Lemma complete_lines_app (x y : jsstring) :
  complete_lines (x ++ y)
  = complete_lines x ++ complete_lines (pending_line x ++ y).
Proof.
  induction x as [t Hn | l rest Hl IH] using lines_ind.
  - now rewrite (complete_lines_no_LF t), (pending_line_no_LF t).
  - rewrite <- app_assoc. cbn [app].
    rewrite !complete_lines_line, pending_line_line by assumption.
    cbn [app]. now rewrite IH.
Qed.

Lemma pending_line_app (x y : jsstring) :
  pending_line (x ++ y) = pending_line (pending_line x ++ y).
Proof.
  induction x as [t Hn | l rest Hl IH] using lines_ind.
  - now rewrite (pending_line_no_LF t).
  - rewrite <- app_assoc. cbn [app].
    now rewrite !pending_line_line by assumption.
Qed.

Lemma complete_lines_after_newline (t y : jsstring) :
  complete_lines ((t ++ [LF]) ++ y)
  = complete_lines (t ++ [LF]) ++ complete_lines y.
Proof.
  rewrite complete_lines_app. f_equal. f_equal.
  rewrite pending_line_app.
  now rewrite pending_line_line by apply pending_line_has_no_LF.
Qed.

(* ================================================================== *)
(** * The read loop *)
(* ================================================================== *)

Lemma TextDecoder_decode_app (d : TextDecoder) (a b : list byte) :
  TextDecoder_decode d (a ++ b)
  = (fst (TextDecoder_decode (fst (TextDecoder_decode d a)) b),
     snd (TextDecoder_decode d a)
       ++ snd (TextDecoder_decode (fst (TextDecoder_decode d a)) b)).
Proof.
  revert d. induction a as [|x a IH]; intros d.
  - cbn [app TextDecoder_decode fst snd].
    now destruct (TextDecoder_decode d b).
  - cbn [app TextDecoder_decode].
    destruct (decode_byte d x) as [d1 out].
    rewrite IH.
    destruct (TextDecoder_decode d1 a) as [d2 out2].
    cbn [fst snd].
    destruct (TextDecoder_decode d2 b) as [d3 out3].
    cbn [fst snd]. now rewrite app_assoc.
Qed.

Section ReadLoop.

Variable P : platform.

Lemma on_read_spec (st : reader_state) (value : list byte) :
  on_read P st value
  = {| decoder := fst (TextDecoder_decode (decoder st) value);
       buffer :=
         pending_line
           (buffer st ++ snd (TextDecoder_decode (decoder st) value));
       acc :=
         fold_left (process_line P)
           (complete_lines
              (buffer st ++ snd (TextDecoder_decode (decoder st) value)))
           (acc st) |}.
Proof.
  unfold on_read, pending_line, complete_lines.
  destruct (TextDecoder_decode (decoder st) value) as [d text].
  cbn [fst snd].
  now destruct (Array_pop (split_lines (buffer st ++ text))).
Qed.

(** The loop started in any state whose kept text has no line break. *)
Lemma read_loop_from (reads : list (list byte)) (st : reader_state) :
  ~ In LF (buffer st) ->
  fold_left (on_read P) reads st
  = {| decoder := fst (TextDecoder_decode (decoder st) (concat reads));
       buffer :=
         pending_line
           (buffer st
              ++ snd (TextDecoder_decode (decoder st) (concat reads)));
       acc :=
         fold_left (process_line P)
           (complete_lines
              (buffer st
                 ++ snd (TextDecoder_decode (decoder st) (concat reads))))
           (acc st) |}.
Proof.
  revert st. induction reads as [|value reads IH]; intros st Hb.
  - cbn [fold_left concat TextDecoder_decode fst snd].
    rewrite app_nil_r, pending_line_no_LF, complete_lines_no_LF
      by assumption.
    now destruct st.
  - cbn [fold_left concat].
    rewrite IH by (rewrite on_read_spec; apply pending_line_has_no_LF).
    rewrite on_read_spec. cbn [decoder buffer acc].
    rewrite TextDecoder_decode_app. cbn [fst snd].
    rewrite app_assoc.
    rewrite <- pending_line_app, (complete_lines_app (buffer st ++ _)).
    now rewrite fold_left_app.
Qed.

(** The state at [done]: the body has run once over every complete line
    of the decoded stream, in order, whatever the reads were. *)
Lemma streamSpeech_loop_spec (reads : list (list byte)) :
  streamSpeech_loop P reads
  = {| decoder := fst (TextDecoder_decode new_TextDecoder (concat reads));
       buffer := pending_line (decoded_text (concat reads));
       acc :=
         fold_left (process_line P) (received_lines (concat reads))
           (acc initial_state) |}.
Proof.
  unfold streamSpeech_loop. rewrite read_loop_from by (intros []).
  reflexivity.
Qed.

(** C3.  For every byte stream, however it is split into reads (at any
    byte, inside a record or inside a multi-byte character), the read loop
    collects the same sequence of chunks as when the whole stream arrives
    in one read. *)
Theorem chunks_independent_of_reads (reads : list (list byte)) :
  chunks (acc (streamSpeech_loop P reads))
  = chunks (acc (streamSpeech_loop P [concat reads])).
Proof.
  rewrite !streamSpeech_loop_spec. cbn [concat]. now rewrite app_nil_r.
Qed.

(** Two ways of splitting one stream give the same final variables, and
    so the same result. *)
Lemma streamSpeech_same_stream (reads reads' : list (list byte))
  (sampleRate : Z) :
  concat reads = concat reads' ->
  streamSpeech_loop P reads = streamSpeech_loop P reads' /\
  streamSpeech P reads sampleRate = streamSpeech P reads' sampleRate.
Proof.
  intros E.
  assert (H : streamSpeech_loop P reads = streamSpeech_loop P reads')
    by (rewrite !streamSpeech_loop_spec; now rewrite E).
  split; [assumption|]. unfold streamSpeech. now rewrite H.
Qed.

End ReadLoop.

(* ================================================================== *)
(** * The decoder and line breaks *)
(* ================================================================== *)

Lemma no_LF_iff (l : list N) : no_LF l = true <-> ~ In LF l.
Proof.
  unfold no_LF. rewrite forallb_forall. split.
  - intros H Hin. apply H in Hin. now rewrite N.eqb_refl in Hin.
  - intros H c Hc. destruct (N.eqb_spec c LF) as [->|]; [contradiction|].
    reflexivity.
Qed.

Lemma no_LF_app (a b : list N) : no_LF (a ++ b) = no_LF a && no_LF b.
Proof. apply forallb_app. Qed.

Lemma no_LF_utf16 (c : N) : (c <> LF)%N -> no_LF (utf16 c) = true.
Proof.
  intros Hc. unfold utf16, no_LF, LF in *.
  destruct (N.ltb_spec c 0x10000); cbn [forallb].
  - destruct (N.eqb_spec c 10); [contradiction | reflexivity].
  - destruct (N.eqb_spec (0xD800 + N.shiftr (c - 0x10000) 10) 10); [lia|].
    destruct (N.eqb_spec (0xDC00 + N.land (c - 0x10000) 0x3FF) 10); [lia|].
    reflexivity.
Qed.

Lemma no_LF_flat_map_utf16 (cps : list N) :
  no_LF cps = true -> no_LF (flat_map utf16 cps) = true.
Proof.
  induction cps as [|c cps IH]; [reflexivity|].
  cbn [flat_map no_LF forallb]. intros H.
  apply andb_true_iff in H. destruct H as [Hc H].
  rewrite no_LF_app, IH by exact H.
  rewrite no_LF_utf16; [reflexivity|].
  intros ->. now rewrite N.eqb_refl in Hc.
Qed.

Lemma N_le_lor (a b : N) : (a <= N.lor a b)%N.
Proof.
  apply N.ldiff_le, N.bits_inj. intros n.
  rewrite N.ldiff_spec, N.lor_spec, N.bits_0.
  now destruct (N.testbit a n), (N.testbit b n).
Qed.

Lemma land_63 (n : N) : (128 <= n < 192)%N -> N.land n 0x3F = (n - 128)%N.
Proof.
  intros Hn. change 0x3F%N with (N.ones 6). rewrite N.land_ones.
  change (2 ^ 6)%N with 64%N.
  symmetry. apply (N.mod_unique n 64 2); lia.
Qed.

(** The handler on a first byte: the state stays well formed, and the only
    line break that it emits is the byte 0x0A itself. *)
Lemma utf8_first_spec (bom : bool) (b : byte) :
  let r := utf8_first (idle bom) (Byte.to_N b) in
  decoder_wf (fst r) = true /\
  BOM_seen (fst r) = bom /\
  (if Byte.eqb b x0a then fst r = idle bom /\ snd r = [LF]
   else no_LF (snd r) = true).
Proof.
  destruct bom, b; vm_compute; repeat split.
Qed.

Lemma decoder_wf_idle (d : TextDecoder) :
  utf8_bytes_needed d = 0%N -> decoder_wf d = true -> d = idle (BOM_seen d).
Proof.
  destruct d as [cp seen needed lo up bom]. cbn. intros -> H.
  cbn in H.
  repeat (apply andb_true_iff in H; destruct H as [H ?]).
  apply N.eqb_eq in H.
  repeat match goal with H : (_ =? _)%N = true |- _ => apply N.eqb_eq in H end.
  now subst.
Qed.

Lemma byte_eqb_x0a (b : byte) :
  Byte.eqb b x0a = true <-> Byte.to_N b = 10%N.
Proof. destruct b; vm_compute; split; congruence. Qed.

Lemma utf8_handler_spec (d : TextDecoder) (b : byte) :
  decoder_wf d = true ->
  let r := utf8_handler d (Byte.to_N b) in
  decoder_wf (fst r) = true /\
  BOM_seen (fst r) = BOM_seen d /\
  (if Byte.eqb b x0a
   then exists e, fst r = idle (BOM_seen d) /\ snd r = e ++ [LF]
                  /\ no_LF e = true /\ ~ In 0xFEFF%N e
   else no_LF (snd r) = true).
Proof.
  intros Hwf. unfold utf8_handler.
  destruct (N.eqb_spec (utf8_bytes_needed d) 0) as [Hn|Hn].
  - rewrite (decoder_wf_idle d Hn Hwf).
    destruct (utf8_first_spec (BOM_seen d) b) as (H1 & H2 & H3).
    cbv zeta. cbn [BOM_seen idle] in *. repeat split; try assumption.
    destruct (Byte.eqb b x0a); [|assumption].
    exists []. destruct H3 as [-> ->]. repeat split. intros [].
  - pose proof (Byte.to_N_bounded b) as Hb.
    set (n := Byte.to_N b) in *.
    unfold decoder_wf in Hwf.
    destruct (N.eqb_spec (utf8_bytes_needed d) 0) as [|_]; [contradiction|].
    apply andb_true_iff in Hwf. destruct Hwf as [Hwf Hcp].
    apply andb_true_iff in Hwf. destruct Hwf as [Hwf Hseen].
    apply andb_true_iff in Hwf. destruct Hwf as [Hlo Hup].
    apply N.leb_le in Hlo, Hup. apply N.ltb_lt in Hseen.
    destruct ((n <? utf8_lower_boundary d)
              || (utf8_upper_boundary d <? n))%N eqn:Hrange.
    + change (utf8_reset d) with (idle (BOM_seen d)).
      destruct (utf8_first_spec (BOM_seen d) b) as (H1 & H2 & H3).
      fold n in H1, H2, H3.
      destruct (utf8_first (idle (BOM_seen d)) n) as [d' out].
      cbv zeta. cbn [fst snd] in *. repeat split; try assumption.
      destruct (Byte.eqb b x0a).
      * destruct H3 as [-> ->]. exists [REPLACEMENT].
        repeat split. intros [H|[]]. discriminate H.
      * cbn [no_LF forallb]. exact H3.
    + apply orb_false_iff in Hrange. destruct Hrange as [Hr1 Hr2].
      apply N.ltb_ge in Hr1, Hr2.
      assert (Hb10 : Byte.eqb b x0a = false).
      { destruct (Byte.eqb b x0a) eqn:E; [|reflexivity].
        apply byte_eqb_x0a in E. fold n in E. lia. }
      rewrite Hb10.
      set (cp := N.lor (N.shiftl (utf8_code_point d) 6) (N.land n 0x3F)).
      assert (Hcp' : (1 <= utf8_code_point d)%N -> (64 <= cp)%N).
      { intros H1. subst cp.
        pose proof (N_le_lor (N.shiftl (utf8_code_point d) 6)
                      (N.land n 0x3F)) as Hle.
        rewrite N.shiftl_mul_pow2 in *. change (2 ^ 6)%N with 64%N in *.
        lia. }
      assert (Hcp0 : (utf8_code_point d = 0 -> 0x90 <= utf8_lower_boundary d
                      -> 16 <= cp)%N).
      { intros H0 H90. subst cp. rewrite H0, N.shiftl_0_l, N.lor_0_l.
        rewrite land_63 by lia. lia. }
      apply orb_true_iff in Hcp.
      destruct (N.eqb_spec (utf8_bytes_seen d + 1) (utf8_bytes_needed d))
        as [Hdone|Hmore].
      * cbv zeta. cbn [fst snd utf8_reset BOM_seen decoder_wf
                         utf8_bytes_needed utf8_code_point utf8_bytes_seen
                         utf8_lower_boundary utf8_upper_boundary].
        repeat split.
        cbn [no_LF forallb]. rewrite andb_true_r.
        destruct Hcp as [Hc|Hc].
        -- apply N.leb_le in Hc. specialize (Hcp' Hc).
           destruct (N.eqb_spec cp LF); [unfold LF in *; lia | reflexivity].
        -- exfalso.
           apply andb_true_iff in Hc. destruct Hc as [Hc _].
           apply andb_true_iff in Hc. destruct Hc as [Hs Hn2].
           apply N.eqb_eq in Hs. apply N.leb_le in Hn2. lia.
      * cbv zeta. cbn [fst snd BOM_seen]. repeat split.
        unfold decoder_wf.
        cbn [utf8_bytes_needed utf8_code_point utf8_bytes_seen
               utf8_lower_boundary utf8_upper_boundary].
        destruct (N.eqb_spec (utf8_bytes_needed d) 0) as [|_];
          [contradiction|].
        assert (H1cp : (1 <= cp)%N).
        { destruct Hcp as [Hc|Hc].
          - apply N.leb_le in Hc. specialize (Hcp' Hc). lia.
          - apply andb_true_iff in Hc. destruct Hc as [Hc H90].
            apply andb_true_iff in Hc. destruct Hc as [Hs Hn2].
            apply N.leb_le in H90.
            destruct (N.eq_dec (utf8_code_point d) 0) as [H0|H0].
            + specialize (Hcp0 H0 H90). lia.
            + assert (1 <= utf8_code_point d)%N by lia.
              specialize (Hcp' H). lia. }
        apply N.leb_le in H1cp. rewrite H1cp. cbn [orb].
        rewrite andb_true_r.
        change ((128 <=? 128) && (191 <=? 191))%N with true.
        cbn [andb]. apply N.ltb_lt. lia.
Qed.

Lemma serialize_wf (d : TextDecoder) (cps : list N) :
  decoder_wf (fst (serialize d cps)) = decoder_wf d.
Proof. destruct d, cps; reflexivity. Qed.

Lemma serialize_no_LF (d : TextDecoder) (cps : list N) :
  no_LF cps = true -> no_LF (snd (serialize d cps)) = true.
Proof.
  destruct cps as [|c cps]; [reflexivity|]. intros H. cbn [serialize snd].
  apply no_LF_flat_map_utf16.
  destruct (negb (BOM_seen d) && (c =? 65279)%N); [|exact H].
  cbn [no_LF forallb] in H. apply andb_true_iff in H. apply H.
Qed.

Lemma serialize_line_end (bom : bool) (e : list N) :
  ~ In 0xFEFF%N e ->
  serialize (idle bom) (e ++ [LF])
  = (idle true, flat_map utf16 e ++ [LF]).
Proof.
  intros He. destruct e as [|c e].
  - cbn [app serialize]. unfold LF. cbn [N.eqb Pos.eqb]. rewrite andb_false_r.
    reflexivity.
  - cbn [app serialize].
    destruct (N.eqb_spec c 65279) as [->|_]; [exfalso; apply He; now left|].
    rewrite andb_false_r. change (c :: e ++ [LF]) with ((c :: e) ++ [LF]).
    rewrite flat_map_app. reflexivity.
Qed.

(** One byte through the decoder: the state stays well formed; the byte
    0x0A ends whatever was pending, leaves the decoder idle with the byte
    order mark behind it, and gives the only line break. *)
Lemma decode_byte_spec (d : TextDecoder) (b : byte) :
  decoder_wf d = true ->
  decoder_wf (fst (decode_byte d b)) = true /\
  (if Byte.eqb b x0a
   then exists e, decode_byte d b = (idle true, e ++ [LF])
                  /\ no_LF e = true
   else no_LF (snd (decode_byte d b)) = true).
Proof.
  intros Hwf. unfold decode_byte.
  destruct (utf8_handler_spec d b Hwf) as (H1 & H2 & H3).
  destruct (utf8_handler d (to_N b)) as [d' cps]. cbn [fst snd] in *.
  split; [now rewrite serialize_wf|].
  destruct (Byte.eqb b x0a).
  - destruct H3 as (e & -> & -> & He & Hbom).
    exists (flat_map utf16 e). split.
    + now apply serialize_line_end.
    + now apply no_LF_flat_map_utf16.
  - now apply serialize_no_LF.
Qed.

Lemma TextDecoder_decode_wf (d : TextDecoder) (bs : list byte) :
  decoder_wf d = true ->
  decoder_wf (fst (TextDecoder_decode d bs)) = true.
Proof.
  revert d. induction bs as [|b bs IH]; intros d Hwf; [exact Hwf|].
  cbn [TextDecoder_decode].
  pose proof (proj1 (decode_byte_spec d b Hwf)) as H1.
  destruct (decode_byte d b) as [d1 out]. cbn [fst] in H1.
  specialize (IH d1 H1).
  destruct (TextDecoder_decode d1 bs). exact IH.
Qed.

Lemma byte_eqb_false (b : byte) : b <> x0a -> Byte.eqb b x0a = false.
Proof.
  intros Hb. destruct (Byte.eqb b x0a) eqn:E; [|reflexivity].
  exfalso. apply Hb. now apply Byte.byte_dec_bl.
Qed.

(** Bytes other than 0x0A never decode to a line break. *)
Lemma TextDecoder_decode_no_LF (d : TextDecoder) (bs : list byte) :
  decoder_wf d = true -> ~ In x0a bs ->
  ~ In LF (snd (TextDecoder_decode d bs)).
Proof.
  revert d. induction bs as [|b bs IH]; intros d Hwf Hn; [intros []|].
  cbn [TextDecoder_decode].
  destruct (decode_byte_spec d b Hwf) as [H1 H2].
  rewrite byte_eqb_false in H2 by (intros ->; apply Hn; now left).
  destruct (decode_byte d b) as [d1 out]. cbn [fst snd] in *.
  specialize (IH d1 H1 (fun H => Hn (or_intror H))).
  destruct (TextDecoder_decode d1 bs) as [d2 out2]. cbn [snd] in *.
  intros Hin. apply in_app_or in Hin. destruct Hin as [Hin|Hin].
  - now apply no_LF_iff in H2.
  - contradiction.
Qed.

(** A stream that ends with the byte 0x0A decodes to a text that ends with
    a line break, and leaves the decoder idle. *)
Lemma TextDecoder_decode_newline (d : TextDecoder) (bs : list byte) :
  decoder_wf d = true ->
  exists t,
    TextDecoder_decode d (bs ++ [x0a]) = (idle true, t ++ [LF]) /\
    (~ In x0a bs -> ~ In LF t).
Proof.
  intros Hwf. rewrite TextDecoder_decode_app.
  pose proof (TextDecoder_decode_wf d bs Hwf) as Hwf1.
  pose proof (TextDecoder_decode_no_LF d bs Hwf) as Hno.
  destruct (TextDecoder_decode d bs) as [d1 t1]. cbn [fst snd] in *.
  cbn [TextDecoder_decode].
  destruct (decode_byte_spec d1 x0a Hwf1) as [_ (e & -> & He)].
  cbn [fst snd]. exists (t1 ++ e). rewrite app_nil_r, app_assoc.
  split; [reflexivity|].
  intros Hn Hin. apply in_app_or in Hin. destruct Hin as [Hin|Hin].
  - now apply Hno.
  - now apply no_LF_iff in He.
Qed.

(** What follows the last 0x0A of a stream adds no complete line. *)
Lemma received_lines_unterminated (head tail : list byte) :
  line_start head -> ~ In x0a tail ->
  received_lines (head ++ tail) = received_lines head.
Proof.
  intros [->|(h & ->)] Hn; unfold received_lines, decoded_text.
  - cbn [app TextDecoder_decode snd complete_lines split_lines
           Array_pop fst].
    apply complete_lines_no_LF.
    now apply TextDecoder_decode_no_LF.
  - rewrite TextDecoder_decode_app.
    destruct (TextDecoder_decode_newline new_TextDecoder h eq_refl)
      as (t & -> & _).
    cbn [fst snd]. rewrite complete_lines_after_newline.
    rewrite (complete_lines_no_LF (snd _)), app_nil_r; [reflexivity|].
    now apply TextDecoder_decode_no_LF.
Qed.

Section Unterminated.

Variable P : platform.

(** C8.  At the end of the stream the bytes after the last newline are
    dropped without a trace: chunks, first-chunk time and warnings, and so
    the whole result, are those of the stream cut after its last newline.
    In particular a complete record that arrives without a newline behind
    it contributes no chunk. *)
Theorem unterminated_last_line_discarded
  (reads : list (list byte)) (head tail : list byte) (sampleRate : Z) :
  concat reads = head ++ tail ->
  line_start head ->
  ~ In x0a tail ->
  acc (streamSpeech_loop P reads) = acc (streamSpeech_loop P [head]) /\
  streamSpeech P reads sampleRate = streamSpeech P [head] sampleRate.
Proof.
  intros E Hh Ht.
  assert (H : acc (streamSpeech_loop P reads)
              = acc (streamSpeech_loop P [head])).
  { rewrite !streamSpeech_loop_spec. cbn [acc concat].
    rewrite E, app_nil_r. now rewrite received_lines_unterminated. }
  split; [exact H|]. unfold streamSpeech. now rewrite H.
Qed.

End Unterminated.

(* ================================================================== *)
(** * The loop body *)
(* ================================================================== *)

Lemma process_line_outcome (P : platform) (a : accum) (line : jsstring) :
  process_line P a line
  = apply_outcome P (classify P line) (substring0 line 100) a.
Proof.
  unfold process_line, loop_body, classify, blank, bindM, elapse.
  destruct (is_empty (trim line)); [reflexivity|].
  unfold try_catch, try_body, bindM, lift.
  destruct (JSON_parse P line) as [chunk|e]; [|reflexivity].
  destruct (result_audioContent chunk) as [audioContent|e]; [|reflexivity].
  destruct (truthy audioContent); [|reflexivity].
  unfold mark_first_chunk, apply_outcome, mark, push, console_warn.
  cbn [firstChunkTime tick chunks warnings].
  destruct (firstChunkTime a);
    destruct (decodeBase64 P audioContent); reflexivity.
Qed.

Section LoopBody.

Variable P : platform.

(** No exception leaves a pass of the loop body. *)
Lemma loop_body_returns (line : jsstring) (a : accum) :
  fst (loop_body P line a) = Ok tt.
Proof.
  unfold loop_body, bindM, elapse.
  destruct (is_empty (trim line)); [reflexivity|].
  unfold try_catch, try_body, bindM, lift, console_warn.
  destruct (JSON_parse P line) as [chunk|e]; [|reflexivity].
  destruct (result_audioContent chunk) as [audioContent|e]; [|reflexivity].
  destruct (truthy audioContent); [|reflexivity].
  unfold mark_first_chunk. cbn [firstChunkTime].
  destruct (firstChunkTime a);
    destruct (decodeBase64 P audioContent); reflexivity.
Qed.





(** C10.  A record whose audio content is the empty string is handled like
    a record without audio content: the pass pushes no chunk, leaves the
    first-chunk time as it was, and warns of nothing. *)
Theorem empty_audioContent_skipped
  (a : accum) (line line' : jsstring) (chunk chunk' : value) :
  JSON_parse P line = Ok chunk ->
  result_audioContent chunk = Ok (VString []) ->
  JSON_parse P line' = Ok chunk' ->
  result_audioContent chunk' = Ok VUndefined ->
  process_line P a line = process_line P a line' /\
  chunks (process_line P a line) = chunks a /\
  firstChunkTime (process_line P a line) = firstChunkTime a /\
  warnings (process_line P a line) = warnings a.
Proof.
  intros Hp Hr Hp' Hr'. rewrite !process_line_outcome. unfold classify.
  rewrite Hp, Hr, Hp', Hr'. cbn [truthy is_empty negb].
  destruct (blank line), (blank line'); now repeat split.
Qed.

End LoopBody.

(* ================================================================== *)
(** * The byte order mark *)
(* ================================================================== *)







(* ================================================================== *)
(** * A malformed line *)
(* ================================================================== *)

Section Malformed.

Variable P : platform.






End Malformed.

(* ================================================================== *)
(** * Latency *)
(* ================================================================== *)

Section Latency.

Variable P : platform.

#[local] Abbreviation clock := (performance_now P).

Lemma tick_lines (lines : list jsstring) (a : accum) :
  tick (fold_left (process_line P) lines a) = (tick a + length lines)%nat.
Proof.
  revert a. induction lines as [|l lines IH]; intros a; cbn [fold_left length].
  - lia.
  - rewrite IH, process_line_outcome.
    destruct (classify P l); cbn [apply_outcome tick]; lia.
Qed.

(** The first-chunk time is a reading of the clock at a step of the loop. *)
Lemma firstChunkTime_is_reading (lines : list jsstring) (a : accum) :
  (forall t, firstChunkTime a = Some t ->
             exists k, (k <= tick a)%nat /\ t = clock k) ->
  forall t, firstChunkTime (fold_left (process_line P) lines a) = Some t ->
    exists k, (k <= tick (fold_left (process_line P) lines a))%nat
              /\ t = clock k.
Proof.
  revert a. induction lines as [|l lines IH]; intros a Ha; [exact Ha|].
  cbn [fold_left]. apply IH. rewrite process_line_outcome.
  intros t. unfold apply_outcome, mark.
  destruct (classify P l); cbn [firstChunkTime tick];
    try (intros Ht; destruct (Ha t Ht) as (k & Hk & ->); exists k;
         split; [lia | reflexivity]);
    (destruct (firstChunkTime a) as [t0|] eqn:E; intros [= <-];
     [destruct (Ha t0 eq_refl) as (k & Hk & ->); exists k;
      split; [lia | reflexivity]
     | exists (S (tick a)); split; [lia | reflexivity]]).
Qed.

(** C7.  For every completed stream, with a monotone clock, the total time
    is at least the time to the first chunk; in particular when at least
    one chunk was received. *)
Theorem totalTime_ge_timeToFirstChunk
  (reads : list (list byte)) (sampleRate : Z) (out : output) :
  monotone clock ->
  streamSpeech P reads sampleRate = Ok out ->
  timeToFirstChunk (stats out) <= totalTime (stats out).
Proof.
  intros Hmono Hout. unfold streamSpeech in Hout.
  destruct (assembleWav _ sampleRate) as [wav|e]; [|discriminate].
  cbn [bind] in Hout. injection Hout as <-.
  cbn [stats timeToFirstChunk totalTime].
  set (st := streamSpeech_loop P reads).
  pose proof (Hmono 0%nat (S (tick (acc st))) ltac:(lia)) as H0.
  destruct (firstChunkTime (acc st)) as [t|] eqn:Et; [|lia].
  destruct (N.eqb_spec t 0); [lia|].
  subst st. rewrite streamSpeech_loop_spec in Et. cbn [acc] in Et.
  apply firstChunkTime_is_reading in Et;
    [|cbn [initial_state acc firstChunkTime]; discriminate].
  destruct Et as (k & Hk & ->).
  rewrite streamSpeech_loop_spec. cbn [acc].
  pose proof (Hmono k (S (tick (fold_left (process_line P)
                (received_lines (concat reads)) (acc initial_state))))
                ltac:(lia)).
  lia.
Qed.

Lemma classify_audio_is_string (line : jsstring) :
  audio_is_string P line -> classify P line <> MarkWarn.
Proof.
  intros H. unfold classify.
  destruct (blank line); [discriminate|].
  destruct (JSON_parse P line) as [chunk|] eqn:Ep; [|discriminate].
  destruct (result_audioContent chunk) as [v|] eqn:Er; [|discriminate].
  destruct (truthy v) eqn:Ev; [|discriminate].
  destruct (H chunk v Ep Er Ev) as [s ->].
  discriminate.
Qed.

(** With string audio contents, the first-chunk time is the reading at the
    step of the first line that yields a chunk. *)
Lemma firstChunkTime_first_decoded (lines : list jsstring) (a : accum) :
  Forall (audio_is_string P) lines ->
  let a' := fold_left (process_line P) lines a in
  match first_decoded P lines (S (tick a)) with
  | Some k =>
      chunks a' <> chunks a /\
      firstChunkTime a'
      = match firstChunkTime a with
        | Some t => Some t
        | None => Some (clock k)
        end
  | None => chunks a' = chunks a /\ firstChunkTime a' = firstChunkTime a
  end /\
  exists pushed, chunks a' = chunks a ++ pushed.
Proof.
  intros Hs. revert a.
  induction Hs as [|l lines Hl Hs IH]; intros a; cbn zeta.
  - cbn [first_decoded fold_left]. split; [now split|].
    exists []. now rewrite app_nil_r.
  - cbn [first_decoded fold_left]. rewrite process_line_outcome.
    apply classify_audio_is_string in Hl. unfold decodes.
    specialize (IH (apply_outcome P (classify P l) (substring0 l 100) a)).
    cbn zeta in IH. destruct IH as [IH (pushed & Hp)].
    destruct (classify P l) as [| |b|] eqn:Ec; [| | |contradiction].
    + cbn [apply_outcome tick chunks firstChunkTime] in *.
      split; [exact IH | now exists pushed].
    + cbn [apply_outcome tick chunks firstChunkTime] in *.
      split; [exact IH | now exists pushed].
    + cbn [apply_outcome tick chunks firstChunkTime] in *.
      split.
      * split.
        -- rewrite Hp, <- app_assoc. intros Heq.
           apply (f_equal (@length _)) in Heq.
           rewrite !length_app in Heq. cbn [length] in Heq. lia.
        -- unfold mark in *.
           destruct (first_decoded P lines (S (S (tick a))));
             destruct IH as [_ ->];
             destruct (firstChunkTime a); reflexivity.
      * exists (b :: pushed). rewrite Hp, <- app_assoc. reflexivity.
Qed.

(** C6 (as amended).  For every completed stream in which the audio
    content of a record, when truthy, is a string, and with a monotone
    clock: when a chunk was decoded, [timeToFirstChunk] is the reading of
    the clock at the first line that yielded a chunk minus the reading at
    the start of the request; when no chunk was decoded it is 0; and it is
    never negative. *)
Theorem timeToFirstChunk_spec
  (reads : list (list byte)) (sampleRate : Z) (out : output) :
  monotone clock ->
  Forall (audio_is_string P) (received_lines (concat reads)) ->
  streamSpeech P reads sampleRate = Ok out ->
  match first_decoded P (received_lines (concat reads)) 1 with
  | Some k =>
      chunks (acc (streamSpeech_loop P reads)) <> [] /\
      timeToFirstChunk (stats out) = Z.of_N (clock k) - Z.of_N (clock 0)
  | None =>
      chunks (acc (streamSpeech_loop P reads)) = [] /\
      timeToFirstChunk (stats out) = 0
  end /\
  0 <= timeToFirstChunk (stats out).
Proof.
  intros Hmono Hs Hout. unfold streamSpeech in Hout.
  destruct (assembleWav _ sampleRate) as [wav|e]; [|discriminate].
  cbn [bind] in Hout. injection Hout as <-.
  cbn [stats timeToFirstChunk].
  rewrite streamSpeech_loop_spec. cbn [acc].
  pose proof (firstChunkTime_first_decoded _ (acc initial_state) Hs) as H.
  cbn zeta in H. destruct H as [H _].
  set (a' := fold_left (process_line P) (received_lines (concat reads))
               (acc initial_state)) in *.
  change (tick (acc initial_state)) with 0%nat in H.
  change (chunks (acc initial_state)) with (@nil Buffer) in H.
  change (firstChunkTime (acc initial_state)) with (@None N) in H.
  destruct (first_decoded P (received_lines (concat reads)) 1) as [k|].
  - destruct H as [Hc ->].
    pose proof (Hmono 0%nat k ltac:(lia)).
    destruct (N.eqb_spec (clock k) 0); repeat split; try assumption; lia.
  - destruct H as [Hc ->]. repeat split; try assumption; lia.
Qed.

(** Without the assumption on the audio contents the time to the first
    chunk is still never negative. *)
Lemma timeToFirstChunk_nonneg
  (reads : list (list byte)) (sampleRate : Z) (out : output) :
  monotone clock ->
  streamSpeech P reads sampleRate = Ok out ->
  0 <= timeToFirstChunk (stats out).
Proof.
  intros Hmono Hout. unfold streamSpeech in Hout.
  destruct (assembleWav _ sampleRate) as [wav|e]; [|discriminate].
  cbn [bind] in Hout. injection Hout as <-.
  cbn [stats timeToFirstChunk].
  destruct (firstChunkTime _) as [t|] eqn:Et; [|lia].
  destruct (N.eqb_spec t 0); [lia|].
  rewrite streamSpeech_loop_spec in Et. cbn [acc] in Et.
  apply firstChunkTime_is_reading in Et;
    [|cbn [initial_state acc firstChunkTime]; discriminate].
  destruct Et as (k & Hk & ->).
  pose proof (Hmono 0%nat k ltac:(lia)). lia.
Qed.

End Latency.

(* ================================================================== *)
(** * A stream without audio *)
(* ================================================================== *)

Section ZeroChunks.

Variable P : platform.

(** With no chunk and a sample rate that fits the header, the result is
    the bare header. *)
Lemma streamSpeech_zero_chunks
  (reads : list (list byte)) (sampleRate : Z) :
  chunks (acc (streamSpeech_loop P reads)) = [] ->
  0 <= sampleRate <= 2147483647 ->
  exists out : output,
    streamSpeech P reads sampleRate = Ok out /\
    audioBuffer out = wav_header_bytes 0 sampleRate.
Proof.
  intros Hc HR. unfold streamSpeech. rewrite Hc.
  rewrite assembleWav_ok by (cbn; lia).
  cbn [bind Buffer_concat concat length Z.of_nat]. rewrite app_nil_r.
  eexists. split; reflexivity.
Qed.

(** The zero-chunk case at the sample rate that every caller uses. *)
Lemma zero_chunks_default_rate (reads : list (list byte)) :
  chunks (acc (streamSpeech_loop P reads)) = [] ->
  exists out : output,
    streamSpeech P reads config_defaults_sampleRate = Ok out /\
    length (audioBuffer out) = 44%nat.
Proof.
  intros Hc.
  destruct (streamSpeech_zero_chunks reads config_defaults_sampleRate Hc)
    as (out & Hout & Hbuf); [unfold config_defaults_sampleRate; lia|].
  exists out. split; [exact Hout|]. now rewrite Hbuf.
Qed.

End ZeroChunks.

(* ================================================================== *)
(** * The model at work on the reference platform *)
(* ================================================================== *)

Import Reference.

(** The decoder on what [encode_base64] writes. *)
Lemma below_64 (Q : N -> bool) :
  forallb Q (map N.of_nat (seq 0 64)) = true ->
  forall v, (v < 64)%N -> Q v = true.
Proof.
  intros H v Hv. rewrite forallb_forall in H. apply H.
  apply in_map_iff. exists (N.to_nat v). split; [apply N2Nat.id|].
  apply in_seq. lia.
Qed.

Lemma unbase64_base64_char (v : N) :
  (v < 64)%N ->
  unbase64 (base64_char v mod 256) = Some v /\ (base64_char v mod 256 <> 61)%N.
Proof.
  intros Hv.
  pose proof (below_64
    (fun v => match unbase64 (base64_char v mod 256) with
              | Some w => (w =? v)%N
              | None => false
              end && negb (base64_char v mod 256 =? 61)%N)
    eq_refl v Hv) as H.
  cbv beta in H. apply andb_true_iff in H. destruct H as [H1 H2].
  split.
  - destruct (unbase64 (base64_char v mod 256)); [|discriminate].
    apply N.eqb_eq in H1. now subst.
  - apply negb_true_iff in H2. now apply N.eqb_neq.
Qed.

Lemma byte_of_N_to_N (v : N) (x : byte) :
  (v mod 256 = Byte.to_N x)%N -> byte_of_N v = x.
Proof.
  intros H. unfold byte_of_N, byte_of_Z.
  replace (Z.to_N (Z.of_N v mod 256)) with (Byte.to_N x).
  - now rewrite Byte.of_to_N.
  - rewrite <- H. change 256 with (Z.of_N 256).
    rewrite <- N2Z.inj_mod. symmetry. apply N2Z.id.
Qed.


Lemma group_bytes (X Y Z : N) :
  (X < 256 -> Y < 256 -> Z < 256 ->
   let n := X * 65536 + Y * 256 + Z in
   let a := n / 262144 in let b := n / 4096 mod 64 in
   let c := n / 64 mod 64 in let d := n mod 64 in
   a < 64 /\ b < 64 /\ c < 64 /\ d < 64 /\
   (a * 4 + b / 16) mod 256 = X /\ (b * 16 + c / 4) mod 256 = Y /\
   (c * 64 + d) mod 256 = Z)%N.
Proof.
  intros HX HY HZ. cbv zeta.
  repeat split; zify; Z.to_euclidean_division_equations; lia.
Qed.

Lemma sextets_char (v : N) (s : jsstring) :
  (v < 64)%N -> sextets (base64_char v :: s) = v :: sextets s.
Proof.
  intros Hv. destruct (unbase64_base64_char v Hv) as [H1 H2].
  cbn [sextets]. apply N.eqb_neq in H2. now rewrite H2, H1.
Qed.

(** The decoder gives back what the encoder of the sample records was
    given. *)
Lemma base64_decode_encode (b : Buffer) :
  base64_decode (encode_base64 b) = b.
Proof.
  assert (H : forall n b, (length b < n)%nat ->
                base64_decode (encode_base64 b) = b).
  { clear b. induction n as [|n IH]; intros b Hb; [lia|].
    destruct b as [|x [|y [|z rest]]]; [reflexivity| | |].
    - destruct (group_bytes (to_N x) 0 0) as (Ha & Hb' & _ & _ & H1 & _);
        try (pose proof (Byte.to_N_bounded x)); try lia.
      cbv zeta in *. unfold base64_decode. cbn [encode_base64].
      rewrite N.mul_0_l, !N.add_0_r in *.
      rewrite !sextets_char by assumption. cbn [sextets bytes_of_sextets].
      now rewrite (byte_of_N_to_N _ x H1).
    - destruct (group_bytes (to_N x) (to_N y) 0)
        as (Ha & Hb' & Hc & _ & H1 & H2 & _);
        try (pose proof (Byte.to_N_bounded x));
        try (pose proof (Byte.to_N_bounded y)); try lia.
      cbv zeta in *. unfold base64_decode. cbn [encode_base64].
      rewrite !N.add_0_r in *.
      rewrite !sextets_char by assumption. cbn [sextets bytes_of_sextets].
      now rewrite (byte_of_N_to_N _ x H1), (byte_of_N_to_N _ y H2).
    - destruct (group_bytes (to_N x) (to_N y) (to_N z))
        as (Ha & Hb' & Hc & Hd & H1 & H2 & H3);
        try (pose proof (Byte.to_N_bounded x));
        try (pose proof (Byte.to_N_bounded y));
        try (pose proof (Byte.to_N_bounded z)); try lia.
      cbv zeta in *. unfold base64_decode. cbn [encode_base64].
      rewrite !sextets_char by assumption. cbn [bytes_of_sextets].
      rewrite (byte_of_N_to_N _ x H1), (byte_of_N_to_N _ y H2),
        (byte_of_N_to_N _ z H3).
      do 3 f_equal. apply (IH rest). cbn [length] in Hb. lia. }
  apply (H (S (length b))). lia.
Qed.

Lemma ticking_monotone : monotone ticking.
Proof. intros i j Hij. unfold ticking. lia. Qed.

Lemma parse_text_rejects_BOM (clock : nat -> N) : rejects_BOM (node clock).
Proof. intros s. exists SyntaxError. reflexivity. Qed.

(** A stream of two records, the first of which carries a 44-byte header
    before 100 bytes of samples and the second 50 bytes of samples: the
    header is stripped, the file holds 150 bytes of data in 194 bytes, and
    the time to the first chunk is positive. *)
Example two_chunk_stream :
  exists out : output,
    streamSpeech (node ticking)
      [record_of (tagged_block ++ pcm 100); record_of (pcm 50)] 48000
    = Ok out /\
    audioBuffer out = wav_header_bytes 150 48000 ++ pcm 150 /\
    length (audioBuffer out) = 194%nat /\
    0 < timeToFirstChunk (stats out).
Proof.
  eexists. split; [vm_compute; reflexivity|].
  repeat split.
Qed.

(** A character split between two reads is decoded as in one read. *)
Example euro_sign_split :
  decoded_text ([xe2; x82] ++ [xac]) = [0x20AC%N] /\
  buffer (streamSpeech_loop (node ticking) [[xe2; x82]; [xac]])
  = [0x20AC%N].
Proof. split; reflexivity. Qed.

(** The sample rate 2^31 does not fit the header: with no chunk at all,
    [streamSpeech] raises at that rate. *)
Example zero_chunks_rate_2147483648_raises :
  chunks (acc (streamSpeech_loop (node ticking) [])) = [] /\
  streamSpeech (node ticking) [] 2147483648 = Throw RangeError.
Proof. split; vm_compute; reflexivity. Qed.


Ltac audio_is_string_here :=
  let chunk := fresh "chunk" in
  let v := fresh "v" in
  let Hp := fresh "Hp" in
  let Hr := fresh "Hr" in
  let Ht := fresh "Ht" in
  intros chunk v Hp Hr Ht;
  vm_compute in Hp;
  first [ discriminate Hp
        | injection Hp as <-; vm_compute in Hr; injection Hr as <-;
          first [ discriminate Ht | eexists; reflexivity ] ].


Lemma timeToFirstChunk_spec_witness :
  exists out : output,
    streamSpeech (node ticking)
      [control_record ++ [x0a] ++ audio_AAEC; [x0a] ++ audio_BAUG ++ [x0a]]
      48000 = Ok out /\
    timeToFirstChunk (stats out)
    = Z.of_N (ticking 2) - Z.of_N (ticking 0) /\
    0 <= timeToFirstChunk (stats out).
Proof.
  eexists. split; [vm_compute; reflexivity|].
  match goal with
  | |- timeToFirstChunk (stats ?o) = _ /\ _ =>
      pose proof (timeToFirstChunk_spec (node ticking)
        [control_record ++ [x0a] ++ audio_AAEC;
         [x0a] ++ audio_BAUG ++ [x0a]] 48000 o) as H
  end.
  assert (Hmono : monotone (performance_now (node ticking)))
    by (intros i j Hij; cbn [performance_now node]; unfold ticking; lia).
  assert (Hs : Forall (audio_is_string (node ticking))
                 (received_lines
                    (concat [control_record ++ [x0a] ++ audio_AAEC;
                             [x0a] ++ audio_BAUG ++ [x0a]]))).
  { apply Forall_forall. intros l Hl. vm_compute in Hl.
    destruct Hl as [<-|[<-|[<-|[]]]]; audio_is_string_here. }
  specialize (H Hmono Hs ltac:(vm_compute; reflexivity)).
  destruct H as [H H0].
  change (first_decoded (node ticking)
            (received_lines
               (concat [control_record ++ [x0a] ++ audio_AAEC;
                        [x0a] ++ audio_BAUG ++ [x0a]])) 1)
    with (Some 2%nat) in H.
  destruct H as [_ H]. split; [exact H | exact H0].
Defined.

(** C6 as stated fails: a record whose audio content is the number 5 sets
    the first-chunk time, [decodeBase64] raises on it, and the stream ends
    with no chunk decoded and a time to first chunk of 7 ticks. *)
Lemma timeToFirstChunk_without_chunk :
  monotone (performance_now (node ticking)) /\
  chunks (acc (streamSpeech_loop (node ticking) [audio_number ++ [x0a]]))
  = [] /\
  exists out : output,
    streamSpeech (node ticking) [audio_number ++ [x0a]] 48000 = Ok out /\
    timeToFirstChunk (stats out) = 7 /\
    timeToFirstChunk (stats out) <> 0.
Proof.
  split; [exact ticking_monotone|].
  split; [vm_compute; reflexivity|].
  eexists. split; [vm_compute; reflexivity|].
  split; [reflexivity | discriminate].
Qed.

Lemma totalTime_ge_timeToFirstChunk_witness :
  exists out : output,
    streamSpeech (node ticking)
      [audio_AAEC ++ [x0a]; audio_BAUG ++ [x0a]] 48000 = Ok out /\
    timeToFirstChunk (stats out) <= totalTime (stats out).
Proof.
  eexists. split; [vm_compute; reflexivity|].
  apply (totalTime_ge_timeToFirstChunk (node ticking)
           [audio_AAEC ++ [x0a]; audio_BAUG ++ [x0a]] 48000).
  - intros i j Hij. cbn [performance_now node]. unfold ticking. lia.
  - vm_compute. reflexivity.
Defined.

Lemma unterminated_last_line_discarded_witness :
  acc (streamSpeech_loop (node ticking)
         [audio_AAEC; [x0a] ++ audio_BAUG])
  = acc (streamSpeech_loop (node ticking) [audio_AAEC ++ [x0a]]) /\
  streamSpeech (node ticking) [audio_AAEC; [x0a] ++ audio_BAUG] 48000
  = streamSpeech (node ticking) [audio_AAEC ++ [x0a]] 48000.
Proof.
  apply (unterminated_last_line_discarded (node ticking)
           [audio_AAEC; [x0a] ++ audio_BAUG]
           (audio_AAEC ++ [x0a]) audio_BAUG 48000).
  - vm_compute. reflexivity.
  - right. exists audio_AAEC. reflexivity.
  - vm_compute. intuition discriminate.
Defined.

(** The record that arrives without its newline is well formed and would
    have given a chunk. *)
Example unterminated_record_lost :
  chunks (acc (streamSpeech_loop (node ticking) [audio_BAUG])) = [] /\
  chunks (acc (streamSpeech_loop (node ticking) [audio_BAUG ++ [x0a]]))
  = [[x04; x05; x06]].
Proof. split; vm_compute; reflexivity. Qed.


Lemma empty_audioContent_skipped_witness :
  process_line (node ticking) (acc initial_state)
    (jlit "{'result':{'audioContent':''}}")
  = process_line (node ticking) (acc initial_state) (jlit "{'result':{}}") /\
  chunks (process_line (node ticking) (acc initial_state)
            (jlit "{'result':{'audioContent':''}}"))
  = chunks (acc initial_state) /\
  firstChunkTime (process_line (node ticking) (acc initial_state)
                    (jlit "{'result':{'audioContent':''}}"))
  = firstChunkTime (acc initial_state) /\
  warnings (process_line (node ticking) (acc initial_state)
              (jlit "{'result':{'audioContent':''}}"))
  = warnings (acc initial_state).
Proof.
  apply (empty_audioContent_skipped (node ticking) (acc initial_state)
           (jlit "{'result':{'audioContent':''}}") (jlit "{'result':{}}")
           (VObject [(lit "result",
                      VObject [(lit "audioContent", VString [])])])
           (VObject [(lit "result", VObject [])])).
  - vm_compute. reflexivity.
  - vm_compute. reflexivity.
  - vm_compute. reflexivity.
  - vm_compute. reflexivity.
Defined.

(* ================================================================== *)
(** * More on the assembled file *)
(* ================================================================== *)

Lemma assembleWav_inv (chunks : list Buffer) (R : Z) (W : Buffer) :
  assembleWav chunks R = Ok W ->
  Z.of_nat (length (Buffer_concat chunks)) <= 4294967259 /\
  0 <= R <= 2147483647 /\
  W = wav_header_bytes (Z.of_nat (length (Buffer_concat chunks))) R
        ++ Buffer_concat chunks.
Proof.
  intros HW.
  destruct (Z_le_gt_dec (Z.of_nat (length (Buffer_concat chunks)))
              4294967259) as [HD|HD];
    [destruct (Z_le_gt_dec 0 R) as [HR0|HR0];
     [destruct (Z_le_gt_dec R 2147483647) as [HR1|HR1]|]|];
    try (rewrite assembleWav_out_of_range in HW by lia; discriminate).
  rewrite assembleWav_ok in HW by lia. injection HW as <-.
  repeat split; lia.
Qed.

(** X1.  [assembleWav] returns exactly when the data length and the byte rate
    fit their 32-bit fields, and otherwise raises a RangeError. *)
Theorem assembleWav_returns_iff (chunks : list Buffer) (R : Z) :
  ((exists W, assembleWav chunks R = Ok W) <->
   Z.of_nat (length (Buffer_concat chunks)) <= 4294967259 /\
   0 <= R <= 2147483647) /\
  (forall e, assembleWav chunks R = Throw e -> e = RangeError).
Proof.
  split; [split|].
  - intros [W HW]. apply assembleWav_inv in HW. tauto.
  - intros [HD HR]. eexists. now apply assembleWav_ok.
  - intros e He.
    destruct (Z_le_gt_dec (Z.of_nat (length (Buffer_concat chunks)))
                4294967259) as [HD|HD];
      [destruct (Z_le_gt_dec 0 R) as [HR0|HR0];
       [destruct (Z_le_gt_dec R 2147483647) as [HR1|HR1]|]|];
      try (rewrite assembleWav_out_of_range in He by lia; congruence).
    rewrite assembleWav_ok in He by lia. discriminate.
Qed.

Lemma little_endian_2 (v : Z) :
  0 <= v <= 65535 ->
  little_endian [byte_of_Z v; byte_of_Z (Z.shiftr v 8)] = v.
Proof.
  intros Hv. cbn [little_endian].
  rewrite !Z_of_byte_of_Z, !Z.shiftr_div_pow2 by lia.
  change (2 ^ 8) with 256.
  Z.div_mod_to_equations. lia.
Qed.

(** X2.  The file that [assembleWav] returns is a canonical PCM file: the four
    tags at their offsets, a 16-byte format chunk that declares PCM, one
    channel, two bytes a sample frame and 16 bits a sample, and after the
    44 bytes of the header the chunks, in order and with nothing added. *)
Theorem assembleWav_canonical (chunks : list Buffer) (R : Z) (W : Buffer) :
  assembleWav chunks R = Ok W ->
  hasWavHeader W = true /\
  slice W 0 4 = list_byte_of_string "RIFF" /\
  slice W 8 16 = list_byte_of_string "WAVEfmt " /\
  little_endian (slice W 16 20) = 16 /\
  little_endian (slice W 20 22) = 1 /\
  little_endian (slice W 22 24) = 1 /\
  little_endian (slice W 32 34) = 2 /\
  little_endian (slice W 34 36) = 16 /\
  slice W 36 40 = list_byte_of_string "data" /\
  skipn 44 W = Buffer_concat chunks.
Proof.
  intros HW. apply assembleWav_inv in HW. destruct HW as (HD & HR & ->).
  split; [reflexivity|].
  rewrite !slice_app_l by (rewrite wav_header_bytes_length; lia).
  repeat split.
Qed.

(** X3.  Stripping the header of an assembled file gives the audio data back,
    unless there is none: the bare 44-byte header is left as it is. *)
Theorem stripWavHeader_assembleWav (chunks : list Buffer) (R : Z)
  (W : Buffer) :
  assembleWav chunks R = Ok W ->
  stripWavHeader W
  = match Buffer_concat chunks with
    | [] => W
    | _ :: _ => Buffer_concat chunks
    end.
Proof.
  intros HW.
  apply assembleWav_inv in HW. destruct HW as (HD & HR & HW).
  assert (Hh : hasWavHeader W = true) by (rewrite HW; reflexivity).
  assert (Hdata : skipn 44 W = Buffer_concat chunks)
    by (rewrite HW; reflexivity).
  assert (Hlen : length W = (44 + length (Buffer_concat chunks))%nat)
    by (rewrite HW, length_app, wav_header_bytes_length; reflexivity).
  unfold stripWavHeader, subarray. rewrite Hh, Hdata. cbn [andb].
  destruct (Buffer_concat chunks) as [|b data] eqn:E.
  - replace (44 <? length W)%nat with false
      by (symmetry; apply Nat.ltb_ge; cbn [length] in Hlen; lia).
    reflexivity.
  - replace (44 <? length W)%nat with true
      by (symmetry; apply Nat.ltb_lt; cbn [length] in Hlen; lia).
    reflexivity.
Qed.

(** X4.  What [stripWavHeader] returns is the buffer itself or what follows its
    first 44 bytes, and is never empty unless the buffer was. *)
Theorem stripWavHeader_suffix (B : Buffer) :
  (stripWavHeader B = B \/
   stripWavHeader B = skipn 44 B /\ (44 < length B)%nat) /\
  (length (stripWavHeader B) <= length B)%nat /\
  (B <> [] -> stripWavHeader B <> []).
Proof.
  unfold stripWavHeader, subarray.
  destruct (hasWavHeader B && (44 <? length B)%nat) eqn:E.
  - apply andb_true_iff in E. destruct E as [_ E]. apply Nat.ltb_lt in E.
    split; [right; now split|]. split.
    + rewrite length_skipn. lia.
    + intros _ H. apply (f_equal (@length _)) in H.
      rewrite length_skipn in H. cbn [length] in H. lia.
  - split; [now left|]. split; [lia | tauto].
Qed.

Lemma Ok_inj {A : Type} (a b : A) : Ok a = Ok b -> a = b.
Proof. now intros [= ->]. Qed.

Ltac header_write H :=
  cbn -[byte_of_Z Z.shiftr Z.ltb Z.add Z.mul Z.div] in H;
  match type of H with
  | bind (if ?c then _ else _) _ = _ =>
      let E := fresh "E" in
      destruct c eqn:E; [cbn [bind] in H; discriminate H|];
      apply orb_false_iff in E; destruct E as [? ?]
  end.

(** X5.  For a sample format whose frame is a whole number of bytes, the header
    that [createWavHeader] returns has 44 bytes, holds every argument in
    its field, and is consistent: the byte rate is the sample rate times
    the block alignment. *)
Theorem createWavHeader_fields (D R c b : Z) (h : Buffer) :
  (8 | c * b) ->
  createWavHeader D R c b = Ok h ->
  length h = 44%nat /\
  little_endian (slice h 4 8) = 36 + D /\
  little_endian (slice h 22 24) = c /\
  little_endian (slice h 24 28) = R /\
  little_endian (slice h 32 34) = c * b / 8 /\
  little_endian (slice h 28 32) = R * little_endian (slice h 32 34) /\
  little_endian (slice h 34 36) = b /\
  little_endian (slice h 40 44) = D.
Proof.
  intros [k Hk] H. unfold createWavHeader, writeUInt32LE, writeUInt16LE in H.
  replace (R * c * b / 8) with (R * k) in H
    by (replace (R * c * b) with (R * k * 8)
          by (rewrite <- (Z.mul_assoc R c b), Hk; ring);
        symmetry; apply Z.div_mul; lia).
  replace (c * b / 8) with k in * by (rewrite Hk; symmetry; apply Z.div_mul; lia).
  do 9 header_write H.
  cbn -[byte_of_Z Z.shiftr Z.ltb Z.add Z.mul Z.div] in H.
  apply Ok_inj in H. subst h.
  repeat match goal with
         | E : (_ <? _) = false |- _ => apply Z.ltb_ge in E
         end.
  unfold slice. cbn [skipn firstn Nat.sub length].
  rewrite !little_endian_4, !little_endian_2 by lia.
  repeat split.
Qed.

(* ================================================================== *)
(** * More on the read loop *)
(* ================================================================== *)

Section LoopOrder.

Variable P : platform.

Lemma process_line_chunks (a : accum) (line : jsstring) :
  chunks (process_line P a line) = chunks a ++ pushed P line /\
  warnings (process_line P a line) = warnings a ++ warned P line.
Proof.
  rewrite process_line_outcome. unfold pushed, warned.
  destruct (classify P line); cbn [apply_outcome chunks warnings];
    now rewrite ?app_nil_r.
Qed.

Lemma process_lines_chunks (lines : list jsstring) (a : accum) :
  chunks (fold_left (process_line P) lines a)
  = chunks a ++ flat_map (pushed P) lines /\
  warnings (fold_left (process_line P) lines a)
  = warnings a ++ flat_map (warned P) lines.
Proof.
  revert a. induction lines as [|l lines IH]; intros a; cbn [fold_left flat_map].
  - now rewrite !app_nil_r.
  - destruct (IH (process_line P a l)) as [-> ->].
    destruct (process_line_chunks a l) as [-> ->].
    now rewrite <- !app_assoc.
Qed.

Lemma streamSpeech_loop_flat (reads : list (list byte)) :
  chunks (acc (streamSpeech_loop P reads))
  = flat_map (pushed P) (received_lines (concat reads)) /\
  warnings (acc (streamSpeech_loop P reads))
  = flat_map (warned P) (received_lines (concat reads)).
Proof.
  rewrite streamSpeech_loop_spec. cbn [acc].
  destruct (process_lines_chunks (received_lines (concat reads))
              (acc initial_state)) as [-> ->].
  now split.
Qed.

(** X6.  At the end of the stream the payload is made of the chunks of the
    complete lines, one for each line that decodes, in the order of the
    lines; and likewise the warnings. *)
Theorem loop_collects_in_order (reads : list (list byte)) :
  chunks (acc (streamSpeech_loop P reads))
  = flat_map (pushed P) (received_lines (concat reads)) /\
  warnings (acc (streamSpeech_loop P reads))
  = flat_map (warned P) (received_lines (concat reads)).
Proof. apply streamSpeech_loop_flat. Qed.

(** X7.  Every warning shows the first 100 code units, at most, of a complete
    line of the stream that is not blank. *)
Theorem warnings_show_lines (reads : list (list byte)) :
  Forall (fun w =>
            (length w <= 100)%nat /\
            exists line,
              In line (received_lines (concat reads)) /\
              blank line = false /\
              w = substring0 line 100)
    (warnings (acc (streamSpeech_loop P reads))).
Proof.
  rewrite (proj2 (streamSpeech_loop_flat reads)).
  apply Forall_forall. intros w Hw. apply in_flat_map in Hw.
  destruct Hw as (line & Hline & Hw).
  assert (H : w = substring0 line 100 /\ blank line = false).
  { unfold warned, classify in Hw. destruct (blank line); [destruct Hw|].
    destruct (JSON_parse P line) as [chunk|];
      [destruct (result_audioContent chunk) as [v|];
       [destruct (truthy v);
        [destruct (decodeBase64 P v)|]|]|];
      cbn [In] in Hw; try contradiction;
      destruct Hw as [<-|[]]; now split. }
  destruct H as [-> Hb]. split.
  - unfold substring0. rewrite length_firstn. lia.
  - now exists line.
Qed.

Lemma apply_outcome_keeps_first (o : outcome) (w : jsstring) (a : accum)
  (t : N) :
  firstChunkTime a = Some t ->
  firstChunkTime (apply_outcome P o w a) = Some t.
Proof.
  intros Ht. destruct o; cbn [apply_outcome firstChunkTime]; unfold mark;
    now rewrite ?Ht.
Qed.

Lemma process_lines_keep_first (lines : list jsstring) (a : accum) (t : N) :
  firstChunkTime a = Some t ->
  firstChunkTime (fold_left (process_line P) lines a) = Some t.
Proof.
  revert a. induction lines as [|l lines IH]; intros a Ht; [exact Ht|].
  cbn [fold_left]. apply IH. rewrite process_line_outcome.
  now apply apply_outcome_keeps_first.
Qed.

Lemma on_read_grows (st : reader_state) (value : list byte) :
  (exists cs, chunks (acc (on_read P st value)) = chunks (acc st) ++ cs) /\
  (exists ws, warnings (acc (on_read P st value))
              = warnings (acc st) ++ ws) /\
  (forall t, firstChunkTime (acc st) = Some t ->
             firstChunkTime (acc (on_read P st value)) = Some t).
Proof.
  rewrite on_read_spec. cbn [acc].
  match goal with
  | |- context [fold_left (process_line P) ?l (acc st)] =>
      destruct (process_lines_chunks l (acc st)) as [-> ->]
  end.
  split; [eauto|]. split; [eauto|].
  intros t Ht. now apply process_lines_keep_first.
Qed.

Lemma reads_grow (more : list (list byte)) (st : reader_state) :
  (exists cs, chunks (acc (fold_left (on_read P) more st))
              = chunks (acc st) ++ cs) /\
  (exists ws, warnings (acc (fold_left (on_read P) more st))
              = warnings (acc st) ++ ws) /\
  (forall t, firstChunkTime (acc st) = Some t ->
             firstChunkTime (acc (fold_left (on_read P) more st)) = Some t).
Proof.
  revert st. induction more as [|value more IH]; intros st; cbn [fold_left].
  - split; [exists []; now rewrite app_nil_r|].
    split; [exists []; now rewrite app_nil_r | auto].
  - destruct (IH (on_read P st value)) as ((cs & Hc) & (ws & Hw) & Hf).
    destruct (on_read_grows st value) as ((cs0 & Hc0) & (ws0 & Hw0) & Hf0).
    split; [exists (cs0 ++ cs); now rewrite Hc, Hc0, app_assoc|].
    split; [exists (ws0 ++ ws); now rewrite Hw, Hw0, app_assoc | auto].
Qed.

(** X8.  The payload is append-only: after further reads the chunks and the
    warnings collected so far are still there, in front of the new ones,
    and the first-chunk time, once set, is never set again. *)
Theorem payload_append_only (reads more : list (list byte)) :
  (exists cs,
     chunks (acc (streamSpeech_loop P (reads ++ more)))
     = chunks (acc (streamSpeech_loop P reads)) ++ cs) /\
  (exists ws,
     warnings (acc (streamSpeech_loop P (reads ++ more)))
     = warnings (acc (streamSpeech_loop P reads)) ++ ws) /\
  (forall t,
     firstChunkTime (acc (streamSpeech_loop P reads)) = Some t ->
     firstChunkTime (acc (streamSpeech_loop P (reads ++ more))) = Some t).
Proof.
  unfold streamSpeech_loop. rewrite fold_left_app. apply reads_grow.
Qed.

End LoopOrder.

(* ================================================================== *)
(** * Lines and newline bytes *)
(* ================================================================== *)

Lemma count_LF_none (l : list N) :
  no_LF l = true -> count_occ N.eq_dec l LF = 0%nat.
Proof.
  intros H. apply count_occ_not_In. now apply no_LF_iff.
Qed.

Lemma count_LF_decode (bs : list byte) (d : TextDecoder) :
  decoder_wf d = true ->
  count_occ N.eq_dec (snd (TextDecoder_decode d bs)) LF
  = count_occ Byte.byte_eq_dec bs x0a.
Proof.
  revert d. induction bs as [|b bs IH]; intros d Hwf; [reflexivity|].
  cbn [TextDecoder_decode count_occ].
  destruct (decode_byte_spec d b Hwf) as [H1 H2].
  destruct (decode_byte d b) as [d1 out] eqn:Ed. cbn [fst snd] in *.
  specialize (IH d1 H1).
  destruct (TextDecoder_decode d1 bs) as [d2 out2]. cbn [snd] in *.
  rewrite count_occ_app, <- IH.
  destruct (Byte.byte_eq_dec b x0a) as [->|Hb].
  - cbn [Byte.eqb] in H2. destruct H2 as (e & [= _ ->] & He).
    rewrite count_occ_app, count_LF_none by exact He. reflexivity.
  - rewrite byte_eqb_false in H2 by exact Hb.
    rewrite count_LF_none by exact H2. reflexivity.
Qed.

Lemma complete_lines_count (t : jsstring) :
  length (complete_lines t) = count_occ N.eq_dec t LF.
Proof.
  induction t as [t Hn | l rest Hl IH] using lines_ind.
  - rewrite complete_lines_no_LF by exact Hn.
    symmetry. now apply count_occ_not_In.
  - rewrite complete_lines_line by exact Hl.
    rewrite count_occ_app. cbn [length count_occ].
    destruct (N.eq_dec LF LF) as [_|H]; [|contradiction].
    pose proof (proj1 (count_occ_not_In N.eq_dec l LF) Hl) as H0.
    change code_unit with N in *. rewrite H0, IH. reflexivity.
Qed.

Section Passes.

Variable P : platform.

Lemma pushed_warned_one (line : jsstring) :
  (length (pushed P line) + length (warned P line) <= 1)%nat.
Proof.
  unfold pushed, warned. destruct (classify P line); cbn [length]; lia.
Qed.

Lemma flat_map_one (lines : list jsstring) :
  (length (flat_map (pushed P) lines) + length (flat_map (warned P) lines)
   <= length lines)%nat.
Proof.
  induction lines as [|l lines IH]; cbn [flat_map length]; [lia|].
  rewrite !length_app. pose proof (pushed_warned_one l). lia.
Qed.

(** X9.  The loop body runs once for each byte 0x0A of the stream, whatever
    the other bytes are, valid UTF-8 or not; so a stream adds at most as
    many chunks and warnings together as it has newline bytes. *)
Theorem one_pass_per_newline (reads : list (list byte)) :
  tick (acc (streamSpeech_loop P reads))
  = count_occ Byte.byte_eq_dec (concat reads) x0a /\
  (length (chunks (acc (streamSpeech_loop P reads)))
   + length (warnings (acc (streamSpeech_loop P reads)))
   <= count_occ Byte.byte_eq_dec (concat reads) x0a)%nat.
Proof.
  assert (Hn : length (received_lines (concat reads))
               = count_occ Byte.byte_eq_dec (concat reads) x0a).
  { unfold received_lines, decoded_text.
    now rewrite complete_lines_count, count_LF_decode. }
  destruct (streamSpeech_loop_flat P reads) as [-> ->].
  rewrite streamSpeech_loop_spec. cbn [acc]. rewrite tick_lines.
  cbn [initial_state acc tick]. rewrite <- Hn. split; [lia|].
  apply flat_map_one.
Qed.



End Passes.

(* ================================================================== *)
(** * Lines next to each other *)
(* ================================================================== *)

Lemma decode_byte_ascii (b : byte) :
  (Byte.to_N b <=? 0x7F)%N = true ->
  decode_byte (idle true) b = (idle true, [Byte.to_N b]).
Proof.
  intros Hb. unfold decode_byte, utf8_handler, utf8_first.
  cbn [idle utf8_bytes_needed N.eqb]. rewrite Hb.
  cbn [serialize idle BOM_seen negb andb utf8_code_point utf8_bytes_seen
         utf8_bytes_needed utf8_lower_boundary utf8_upper_boundary
         flat_map app].
  unfold utf16. apply N.leb_le in Hb.
  replace (to_N b <? 65536)%N with true by (symmetry; apply N.ltb_lt; lia).
  reflexivity.
Qed.

Lemma TextDecoder_decode_ascii (bs : list byte) :
  forallb (fun b => (Byte.to_N b <=? 0x7F)%N) bs = true ->
  TextDecoder_decode (idle true) bs = (idle true, map Byte.to_N bs).
Proof.
  induction bs as [|b bs IH]; intros H; [reflexivity|].
  cbn [forallb] in H. apply andb_true_iff in H. destruct H as [Hb H].
  cbn [TextDecoder_decode map]. rewrite decode_byte_ascii by exact Hb.
  now rewrite IH.
Qed.

Lemma decode_byte_ascii_LF :
  TextDecoder_decode (idle true) [x0a] = (idle true, [LF]).
Proof. reflexivity. Qed.

Lemma trimStart_whitespace (l : jsstring) :
  forallb is_whitespace l = true -> trimStart l = [].
Proof.
  induction l as [|c l IH]; [reflexivity|]. cbn [forallb trimStart].
  intros H. apply andb_true_iff in H. destruct H as [-> H]. now apply IH.
Qed.

Lemma blank_whitespace (l : jsstring) :
  forallb is_whitespace l = true -> blank l = true.
Proof.
  intros H. unfold blank, trim. now rewrite (trimStart_whitespace l H).
Qed.

Lemma is_blank_byte_spec (b : byte) :
  is_blank_byte b = true ->
  (Byte.to_N b <=? 0x7F)%N = true /\
  is_whitespace (Byte.to_N b) = true /\ b <> x0a.
Proof.
  destruct b; vm_compute; intros H; try discriminate H;
    repeat split; discriminate.
Qed.

(** The lines of a stream after a newline are those of what follows,
    decoded on its own by a decoder that is past the start of the stream. *)
Lemma received_lines_after (h rest : list byte) :
  received_lines ((h ++ [x0a]) ++ rest)
  = received_lines (h ++ [x0a])
      ++ complete_lines (snd (TextDecoder_decode (idle true) rest)).
Proof.
  unfold received_lines, decoded_text. rewrite TextDecoder_decode_app.
  destruct (TextDecoder_decode_newline new_TextDecoder h eq_refl)
    as (t & -> & _).
  cbn [fst snd]. apply complete_lines_after_newline.
Qed.

Lemma complete_lines_one_more (bad rest : list byte) :
  ~ In x0a bad ->
  exists line,
    ~ In LF line /\
    TextDecoder_decode (idle true) (bad ++ [x0a]) = (idle true, line ++ [LF])
    /\
    complete_lines
      (snd (TextDecoder_decode (idle true) ((bad ++ [x0a]) ++ rest)))
    = line :: complete_lines (snd (TextDecoder_decode (idle true) rest)).
Proof.
  intros Hbad.
  destruct (TextDecoder_decode_newline (idle true) bad eq_refl)
    as (t & Ht & Hno).
  exists t. split; [now apply Hno|]. split; [exact Ht|].
  rewrite TextDecoder_decode_app, Ht. cbn [fst snd].
  rewrite <- app_assoc. cbn [app]. apply complete_lines_line. now apply Hno.
Qed.

(** X11.  A line does not reach into its neighbours: whatever bytes stand
    between two newlines, truncated characters and invalid UTF-8 included,
    the lines before and the lines after are the same. *)
Theorem lines_are_isolated (h bad bad' suffix : list byte) :
  ~ In x0a bad -> ~ In x0a bad' ->
  exists (line line' : jsstring) (before after : list jsstring),
    received_lines ((h ++ [x0a]) ++ (bad ++ [x0a]) ++ suffix)
    = before ++ line :: after /\
    received_lines ((h ++ [x0a]) ++ (bad' ++ [x0a]) ++ suffix)
    = before ++ line' :: after /\
    before = received_lines (h ++ [x0a]) /\
    received_lines ((h ++ [x0a]) ++ suffix) = before ++ after.
Proof.
  intros Hbad Hbad'.
  destruct (complete_lines_one_more bad suffix Hbad) as (l & _ & _ & Hl).
  destruct (complete_lines_one_more bad' suffix Hbad') as (l' & _ & _ & Hl').
  exists l, l', (received_lines (h ++ [x0a])),
    (complete_lines (snd (TextDecoder_decode (idle true) suffix))).
  rewrite !received_lines_after, Hl, Hl'. repeat split.
Qed.

Section BlankLines.

Variable P : platform.

Lemma pushed_warned_blank (line : jsstring) :
  blank line = true -> pushed P line = [] /\ warned P line = [].
Proof.
  intros Hb. unfold pushed, warned, classify. now rewrite Hb.
Qed.

(** X12.  A line of spaces, tabs and carriage returns, or an empty line, between
    two lines of the stream changes neither the chunks nor the warnings. *)
Theorem blank_line_ignored
  (reads reads' : list (list byte)) (h ws suffix : list byte) :
  concat reads = (h ++ [x0a]) ++ (ws ++ [x0a]) ++ suffix ->
  concat reads' = (h ++ [x0a]) ++ suffix ->
  forallb is_blank_byte ws = true ->
  chunks (acc (streamSpeech_loop P reads))
  = chunks (acc (streamSpeech_loop P reads')) /\
  warnings (acc (streamSpeech_loop P reads))
  = warnings (acc (streamSpeech_loop P reads')).
Proof.
  intros E E' Hws.
  destruct (streamSpeech_loop_flat P reads) as [-> ->].
  destruct (streamSpeech_loop_flat P reads') as [-> ->].
  rewrite E, E', !received_lines_after.
  assert (Hascii : forallb (fun b => (to_N b <=? 127)%N) ws = true).
  { apply forallb_forall. intros b Hb.
    apply (proj1 (forallb_forall _ _) Hws) in Hb.
    now apply is_blank_byte_spec in Hb. }
  assert (Hbad : ~ In x0a ws).
  { intros Hin. apply (proj1 (forallb_forall _ _) Hws) in Hin.
    apply is_blank_byte_spec in Hin. now destruct Hin as (_ & _ & Hin). }
  destruct (complete_lines_one_more ws suffix Hbad) as (l & _ & Hd & ->).
  rewrite TextDecoder_decode_app, TextDecoder_decode_ascii in Hd
    by exact Hascii.
  cbn [fst snd] in Hd. rewrite decode_byte_ascii_LF in Hd.
  apply (f_equal snd) in Hd. cbn [snd] in Hd.
  apply app_inj_tail in Hd. destruct Hd as [<- _].
  assert (Hblank : blank (map to_N ws) = true).
  { apply blank_whitespace. apply forallb_forall. intros c Hc.
    apply in_map_iff in Hc. destruct Hc as (b & <- & Hb).
    apply (proj1 (forallb_forall _ _) Hws) in Hb.
    now apply is_blank_byte_spec in Hb. }
  destruct (pushed_warned_blank _ Hblank) as [Hp Hw].
  rewrite !flat_map_app. cbn [flat_map]. rewrite Hp, Hw. now split.
Qed.

End BlankLines.

(* ================================================================== *)
(** * The read loop on an engine with bounded strings *)
(* ================================================================== *)

(** The decoder never makes more code units than it has read bytes. *)
Lemma utf16_length (cp : N) : (length (utf16 cp) <= 2)%nat.
Proof. unfold utf16. destruct (cp <? 65536)%N; cbn [length]; lia. Qed.

Lemma utf8_first_length (bom : bool) (b : byte) :
  let r := utf8_first (idle bom) (Byte.to_N b) in
  (length (flat_map utf16 (snd r)) + pending_bytes (fst r) <= 1)%nat.
Proof. destruct bom, b; vm_compute; lia. Qed.

Lemma serialize_length (d : TextDecoder) (cps : list N) :
  (length (snd (serialize d cps)) <= length (flat_map utf16 cps))%nat /\
  pending_bytes (fst (serialize d cps)) = pending_bytes d.
Proof.
  destruct cps as [|c rest]; [split; reflexivity|].
  cbn [serialize fst snd]. split; [|reflexivity].
  destruct (negb (BOM_seen d) && (c =? 65279)%N); [|lia].
  cbn [flat_map]. rewrite length_app. lia.
Qed.

Lemma decode_byte_length (d : TextDecoder) (b : byte) :
  decoder_wf d = true ->
  (length (snd (decode_byte d b)) + pending_bytes (fst (decode_byte d b))
   <= pending_bytes d + 1)%nat.
Proof.
  intros Hwf. unfold decode_byte.
  assert (H : (length (flat_map utf16 (snd (utf8_handler d (to_N b))))
               + pending_bytes (fst (utf8_handler d (to_N b)))
               <= pending_bytes d + 1)%nat).
  { unfold utf8_handler.
    destruct (N.eqb_spec (utf8_bytes_needed d) 0) as [Hn|Hn].
    - rewrite (decoder_wf_idle d Hn Hwf).
      pose proof (utf8_first_length (BOM_seen d) b) as H. cbv zeta in H.
      lia.
    - assert (Hp : pending_bytes d = S (N.to_nat (utf8_bytes_seen d))).
      { unfold pending_bytes.
        destruct (N.eqb_spec (utf8_bytes_needed d) 0); [contradiction|].
        reflexivity. }
      destruct ((to_N b <? utf8_lower_boundary d)
                || (utf8_upper_boundary d <? to_N b))%N.
      + change (utf8_reset d) with (idle (BOM_seen d)).
        pose proof (utf8_first_length (BOM_seen d) b) as H. cbv zeta in H.
        destruct (utf8_first (idle (BOM_seen d)) (to_N b)) as [d' out].
        cbn [fst snd flat_map] in *. rewrite length_app.
        change (length (utf16 REPLACEMENT)) with 1%nat. lia.
      + cbv zeta.
        destruct (N.eqb_spec (utf8_bytes_seen d + 1) (utf8_bytes_needed d))
          as [E|E]; cbn [fst snd flat_map].
        * rewrite app_nil_r.
          pose proof (utf16_length
                        (N.lor (N.shiftl (utf8_code_point d) 6)
                           (N.land (to_N b) 63))).
          unfold pending_bytes at 1, utf8_reset. cbn [utf8_bytes_needed].
          cbn [N.eqb]. lia.
        * unfold pending_bytes at 1.
          cbn [utf8_bytes_needed utf8_bytes_seen length].
          destruct (N.eqb_spec (utf8_bytes_needed d) 0); [contradiction|].
          lia. }
  destruct (utf8_handler d (to_N b)) as [d' cps]. cbn [fst snd] in H.
  destruct (serialize_length d' cps) as [H1 H2]. lia.
Qed.

Lemma TextDecoder_decode_length (d : TextDecoder) (bs : list byte) :
  decoder_wf d = true ->
  (length (snd (TextDecoder_decode d bs))
   + pending_bytes (fst (TextDecoder_decode d bs))
   <= pending_bytes d + length bs)%nat.
Proof.
  revert d. induction bs as [|b bs IH]; intros d Hwf; [cbn; lia|].
  cbn [TextDecoder_decode length].
  pose proof (decode_byte_length d b Hwf) as H1.
  pose proof (proj1 (decode_byte_spec d b Hwf)) as Hwf1.
  destruct (decode_byte d b) as [d1 out]. cbn [fst snd] in *.
  specialize (IH d1 Hwf1).
  destruct (TextDecoder_decode d1 bs) as [d2 out']. cbn [fst snd] in *.
  rewrite length_app. lia.
Qed.

Lemma pending_line_length (t : jsstring) :
  (length (pending_line t) <= length t)%nat.
Proof.
  induction t as [t Hn | l rest Hl IH] using lines_ind.
  - now rewrite pending_line_no_LF.
  - rewrite pending_line_line by assumption.
    rewrite length_app. cbn [length]. lia.
Qed.

Section BoundedStrings.

Variable P : platform.

(** On a string that fits, the pass is [on_read]. *)
Lemma V8_read_spec (st : reader_state) (value : list byte) :
  V8.read P st value
  = if V8.too_long
         (buffer st ++ snd (TextDecoder_decode (decoder st) value))
    then V8.Raises V8.StringTooLong
    else V8.Returns (on_read P st value).
Proof.
  unfold V8.read, on_read.
  destruct (TextDecoder_decode (decoder st) value) as [d text].
  cbn [snd]. destruct (V8.too_long (buffer st ++ text)); [reflexivity|].
  now destruct (Array_pop (split_lines (buffer st ++ text))).
Qed.

Lemma V8_read_loop_spec (reads : list (list byte)) (st : reader_state) :
  V8.read_loop P st reads
  = if V8.fits_from P st reads
    then V8.Returns (fold_left (on_read P) reads st)
    else V8.Raises V8.StringTooLong.
Proof.
  revert st. induction reads as [|value reads IH]; intros st; [reflexivity|].
  cbn [V8.read_loop V8.fits_from fold_left]. rewrite V8_read_spec.
  destruct (V8.too_long _); [reflexivity|].
  cbn [negb andb]. apply IH.
Qed.

(** When every string fits, the call is [streamSpeech]; otherwise it is
    over at line 77. *)
Lemma V8_streamSpeech_spec (reads : list (list byte)) (sampleRate : Z) :
  V8.streamSpeech P reads sampleRate
  = if V8.fits P reads
    then match streamSpeech P reads sampleRate with
         | Ok out => V8.Returns out
         | Throw e => V8.Raises (V8.Uncaught e)
         end
    else V8.Raises V8.StringTooLong.
Proof.
  unfold V8.streamSpeech, streamSpeech, V8.fits, streamSpeech_loop.
  rewrite V8_read_loop_spec.
  destruct (V8.fits_from P initial_state reads); [|reflexivity].
  destruct (assembleWav _ sampleRate); reflexivity.
Qed.

Lemma fits_from_short (reads : list (list byte)) (st : reader_state) :
  decoder_wf (decoder st) = true ->
  (N.of_nat (length (buffer st) + pending_bytes (decoder st)
             + length (concat reads)) <= V8.kMaxLength)%N ->
  V8.fits_from P st reads = true.
Proof.
  revert st. induction reads as [|value reads IH]; intros st Hwf Hlen;
    [reflexivity|].
  cbn [V8.fits_from concat] in *. rewrite length_app in Hlen.
  pose proof (TextDecoder_decode_length (decoder st) value Hwf) as Hd.
  pose proof (TextDecoder_decode_wf (decoder st) value Hwf) as Hwf'.
  apply andb_true_iff. split.
  - apply negb_true_iff. unfold V8.too_long. apply N.ltb_ge.
    rewrite length_app. lia.
  - apply IH; rewrite on_read_spec; cbn [decoder buffer]; [exact Hwf'|].
    pose proof (pending_line_length
                  (buffer st ++ snd (TextDecoder_decode (decoder st) value)))
      as Hp.
    rewrite length_app in Hp. lia.
Qed.

(** What holds of [streamSpeech] whenever it returns holds on the engine
    too. *)
Lemma V8_returns_streamSpeech
  (reads : list (list byte)) (sampleRate : Z) (out : output) :
  V8.streamSpeech P reads sampleRate = V8.Returns out ->
  streamSpeech P reads sampleRate = Ok out.
Proof.
  rewrite V8_streamSpeech_spec.
  destruct (V8.fits P reads); [|discriminate].
  destruct (streamSpeech P reads sampleRate); [|discriminate].
  intros H. injection H as ->. reflexivity.
Qed.

(** A response of at most [kMaxLength] bytes never builds a string that is
    too long. *)
Lemma short_stream_fits (reads : list (list byte)) :
  (N.of_nat (length (concat reads)) <= V8.kMaxLength)%N ->
  V8.fits P reads = true.
Proof.
  intros H. apply fits_from_short; [reflexivity|].
  cbn [initial_state buffer decoder length]. exact H.
Qed.

Lemma decode_byte_ascii_first (bom : bool) (b : byte) :
  (Byte.to_N b <=? 0x7F)%N = true ->
  decode_byte (idle bom) b = (idle true, [Byte.to_N b]).
Proof. destruct bom, b; vm_compute; intros H; congruence. Qed.

Lemma TextDecoder_decode_ascii_from (bom : bool) (bs : list byte) :
  forallb is_ascii_no_LF bs = true ->
  exists bom',
    TextDecoder_decode (idle bom) bs = (idle bom', map Byte.to_N bs).
Proof.
  revert bom. induction bs as [|b bs IH]; intros bom H;
    [now exists bom|].
  cbn [forallb] in H. apply andb_true_iff in H. destruct H as [Hb H].
  unfold is_ascii_no_LF in Hb. apply andb_true_iff in Hb.
  destruct Hb as [Hb _].
  cbn [TextDecoder_decode map]. rewrite decode_byte_ascii_first by exact Hb.
  destruct (IH true H) as [bom' ->]. now exists bom'.
Qed.

Lemma ascii_no_LF (bs : list byte) :
  forallb is_ascii_no_LF bs = true -> ~ In LF (map Byte.to_N bs).
Proof.
  intros H Hin. apply in_map_iff in Hin. destruct Hin as (b & Hb & Hin).
  rewrite forallb_forall in H. specialize (H b Hin).
  unfold is_ascii_no_LF in H. apply andb_true_iff in H.
  destruct H as [_ H]. apply negb_true_iff in H.
  apply byte_eqb_x0a in Hb. congruence.
Qed.

(** A line of ASCII characters that outgrows [kMaxLength] before its
    newline arrives ends the call, however it is split into reads. *)
Lemma long_line_does_not_fit (reads : list (list byte))
  (st : reader_state) (bom : bool) :
  decoder st = idle bom ->
  ~ In LF (buffer st) ->
  V8.too_long (buffer st) = false ->
  forallb is_ascii_no_LF (concat reads) = true ->
  (V8.kMaxLength < N.of_nat (length (buffer st) + length (concat reads)))%N ->
  V8.fits_from P st reads = false.
Proof.
  revert st bom. induction reads as [|value reads IH];
    intros st bom Hd Hb Hfit Hascii Hlen.
  - unfold V8.too_long in Hfit. apply N.ltb_ge in Hfit.
    cbn [concat length] in Hlen. lia.
  - cbn [V8.fits_from concat] in *. rewrite forallb_app in Hascii.
    apply andb_true_iff in Hascii. destruct Hascii as [Hv Hrest].
    rewrite Hd. destruct (TextDecoder_decode_ascii_from bom value Hv)
      as [bom' E].
    rewrite E. cbn [snd].
    destruct (V8.too_long (buffer st ++ map to_N value)) eqn:Et;
      [reflexivity|].
    cbn [negb andb].
    assert (Hno : ~ In LF (buffer st ++ map to_N value)).
    { intros Hin. apply in_app_or in Hin. destruct Hin as [Hin|Hin];
        [now apply Hb | now apply (ascii_no_LF value Hv)]. }
    apply (IH _ bom').
    + rewrite on_read_spec. cbn [decoder]. rewrite Hd, E. reflexivity.
    + rewrite on_read_spec. cbn [buffer]. apply pending_line_has_no_LF.
    + rewrite on_read_spec. cbn [buffer]. rewrite Hd, E. cbn [snd].
      now rewrite pending_line_no_LF.
    + exact Hrest.
    + rewrite on_read_spec. cbn [buffer]. rewrite Hd, E. cbn [snd].
      rewrite pending_line_no_LF by exact Hno.
      rewrite length_app, length_map. rewrite length_app in Hlen. lia.
Qed.

(** Such a response holds no line, and so no chunk. *)
Lemma long_line_no_chunk (reads : list (list byte)) :
  forallb is_ascii_no_LF (concat reads) = true ->
  chunks (acc (streamSpeech_loop P reads)) = [].
Proof.
  intros H. rewrite streamSpeech_loop_spec. cbn [acc].
  unfold received_lines, decoded_text.
  change new_TextDecoder with (idle false).
  destruct (TextDecoder_decode_ascii_from false _ H) as [bom' ->].
  cbn [snd]. rewrite complete_lines_no_LF by (now apply ascii_no_LF).
  reflexivity.
Qed.

(** C4 (as amended).  When the stream yields no audio chunk, every string
    that the read loop builds fits the engine, and the sample rate is
    between 0 and 2^31 - 1, [streamSpeech] returns, and the audio buffer
    is exactly the 44-byte header, with 36 in the file-size field and 0 in
    the data-length field. *)
Theorem zero_chunks_header_only
  (reads : list (list byte)) (sampleRate : Z) :
  V8.fits P reads = true ->
  chunks (acc (streamSpeech_loop P reads)) = [] ->
  0 <= sampleRate <= 2147483647 ->
  exists out : output,
    V8.streamSpeech P reads sampleRate = V8.Returns out /\
    audioBuffer out = wav_header_bytes 0 sampleRate /\
    length (audioBuffer out) = 44%nat /\
    little_endian (slice (audioBuffer out) 4 8) = 36 /\
    little_endian (slice (audioBuffer out) 40 44) = 0.
Proof.
  intros Hfit Hc HR.
  destruct (streamSpeech_zero_chunks P reads sampleRate Hc HR)
    as (out & Hout & Hbuf).
  exists out. rewrite V8_streamSpeech_spec, Hfit, Hout.
  split; [reflexivity|]. split; [exact Hbuf|]. rewrite Hbuf.
  destruct (header_fields 0 sampleRate []) as (H1 & H2 & _); [lia | lia |].
  rewrite app_nil_r in H1, H2.
  repeat split; assumption.
Qed.

(** The same for every response of at most [kMaxLength] bytes, at the
    sample rate that every caller uses. *)
Lemma zero_chunks_short_stream (reads : list (list byte)) :
  (N.of_nat (length (concat reads)) <= V8.kMaxLength)%N ->
  chunks (acc (streamSpeech_loop P reads)) = [] ->
  exists out : output,
    V8.streamSpeech P reads config_defaults_sampleRate = V8.Returns out /\
    audioBuffer out = wav_header_bytes 0 48000.
Proof.
  intros Hlen Hc.
  destruct (streamSpeech_zero_chunks P reads config_defaults_sampleRate Hc)
    as (out & Hout & Hbuf); [unfold config_defaults_sampleRate; lia|].
  exists out. rewrite V8_streamSpeech_spec, short_stream_fits, Hout
    by exact Hlen.
  split; [reflexivity | exact Hbuf].
Qed.

End BoundedStrings.

(* ================================================================== *)
(** * What streamSpeech returns and raises *)
(* ================================================================== *)

Section Results.

Variable P : platform.

(** X13.  Whenever [streamSpeech] returns, the audio buffer is the header
    followed by the chunks of the decodable lines in the order of the
    lines, it passes [hasWavHeader], and its data-length and sample-rate
    fields hold the length of that data and the sample rate asked for. *)
Theorem streamSpeech_result
  (reads : list (list byte)) (sampleRate : Z) (out : output) :
  streamSpeech P reads sampleRate = Ok out ->
  let data :=
    Buffer_concat (flat_map (pushed P) (received_lines (concat reads))) in
  audioBuffer out = wav_header_bytes (Z.of_nat (length data)) sampleRate
                      ++ data /\
  hasWavHeader (audioBuffer out) = true /\
  little_endian (slice (audioBuffer out) 40 44) = Z.of_nat (length data) /\
  little_endian (slice (audioBuffer out) 24 28) = sampleRate /\
  length (audioBuffer out) = (44 + length data)%nat.
Proof.
  intros Hout data. unfold streamSpeech in Hout.
  destruct (assembleWav _ sampleRate) as [W|e] eqn:EW; [|discriminate].
  cbn [bind] in Hout. apply Ok_inj in Hout. subst out. cbn [audioBuffer].
  apply assembleWav_inv in EW.
  rewrite (proj1 (streamSpeech_loop_flat P reads)) in EW. fold data in EW.
  destruct EW as (HD & HR & ->).
  destruct (header_fields (Z.of_nat (length data)) sampleRate data)
    as (_ & H2 & H3 & _); [lia | lia |].
  split; [reflexivity|]. split; [reflexivity|].
  split; [exact H2|]. split; [exact H3|].
  now rewrite length_app, wav_header_bytes_length.
Qed.




End Results.

(* ================================================================== *)
(** * The client *)
(* ================================================================== *)

Section ClientFacts.

Variable env : environment.
Variable w : world.

Lemma fetch_POST_no_key (endpoint : jsstring) (payload : value) :
  no_key env ->
  fetch_POST env w endpoint payload = ([], Rejected (Error key_not_set)).
Proof.
  intros [H|H]; unfold fetch_POST, getAuthHeaders, assertApiKey;
    rewrite H; reflexivity.
Qed.

Lemma fetch_POST_key (key endpoint : jsstring) (payload : value) :
  has_key env key ->
  fetch_POST env w endpoint payload
  = ([Fetch (authorised_POST key endpoint payload)],
     fetch w (authorised_POST key endpoint payload)).
Proof.
  intros [H Hk]. unfold fetch_POST, getAuthHeaders, assertApiKey.
  rewrite H. destruct key; [contradiction|]. reflexivity.
Qed.

Lemma key_cases : no_key env \/ exists key, has_key env key.
Proof.
  unfold no_key, has_key. destruct (INWORLD_API_KEY env) as [[|c key]|].
  - left. now right.
  - right. exists (c :: key). split; [reflexivity | discriminate].
  - left. now left.
Qed.

Lemma post_no_key (endpoint : jsstring) (payload : value) :
  no_key env ->
  post env w endpoint payload = ([], Rejected (Error key_not_set)).
Proof.
  intros H. unfold post. now rewrite fetch_POST_no_key.
Qed.

Lemma postStream_no_key (endpoint : jsstring) (payload : value) :
  no_key env ->
  postStream env w endpoint payload = ([], Rejected (Error key_not_set)).
Proof.
  intros H. unfold postStream. now rewrite fetch_POST_no_key.
Qed.

Lemma post_key (key endpoint : jsstring) (payload : value) :
  has_key env key ->
  post env w endpoint payload
  = match fetch w (authorised_POST key endpoint payload) with
    | Resolved r =>
        if ok r
        then ([Fetch (authorised_POST key endpoint payload)],
              response_json r)
        else HTTP_error (authorised_POST key endpoint payload) r
    | Rejected x =>
        ([Fetch (authorised_POST key endpoint payload)], Rejected x)
    end.
Proof.
  intros H. unfold post. rewrite (fetch_POST_key key) by exact H.
  destruct (fetch w _) as [r|x]; [|reflexivity].
  unfold await, HTTP_error, api_error, await.
  destruct (ok r); [|now destruct (response_text r)].
  cbn [negb]. now destruct (response_json r).
Qed.

Lemma postStream_key (key endpoint : jsstring) (payload : value) :
  has_key env key ->
  postStream env w endpoint payload
  = match fetch w (authorised_POST key endpoint payload) with
    | Resolved r =>
        if ok r
        then ([Fetch (authorised_POST key endpoint payload)],
              match response_body r with
              | Some stream => Resolved stream
              | None => Rejected (Error (lit "Response body is null"))
              end)
        else HTTP_error (authorised_POST key endpoint payload) r
    | Rejected x =>
        ([Fetch (authorised_POST key endpoint payload)], Rejected x)
    end.
Proof.
  intros H. unfold postStream. rewrite (fetch_POST_key key) by exact H.
  destruct (fetch w _) as [r|x]; [|reflexivity].
  unfold await, HTTP_error, api_error, await.
  destruct (ok r); [|now destruct (response_text r)].
  cbn [negb]. now destruct (response_body r).
Qed.

(** X15.  [postStream] hands over a stream exactly when the key is set, the
    response has a 2xx status and its body is not null; the one request
    that it has then sent is the authorised POST to the endpoint. *)
Theorem postStream_resolves_iff
  (endpoint : jsstring) (payload : value) (effects : list effect)
  (stream : list (list byte)) :
  postStream env w endpoint payload = (effects, Resolved stream) <->
  exists key r,
    has_key env key /\
    fetch w (authorised_POST key endpoint payload) = Resolved r /\
    (200 <= status r <= 299)%N /\
    response_body r = Some stream /\
    effects = [Fetch (authorised_POST key endpoint payload)].
Proof.
  split.
  - intros H. destruct key_cases as [Hn | [key Hk]].
    + rewrite postStream_no_key in H by exact Hn. discriminate.
    + rewrite (postStream_key key) in H by exact Hk.
      destruct (fetch w _) as [r|x] eqn:Ef; [|discriminate].
      destruct (ok r) eqn:Eok;
        [|unfold HTTP_error in H; destruct (response_text r); discriminate].
      destruct (response_body r) as [s|] eqn:Eb; [|discriminate].
      injection H as <- <-. exists key, r.
      unfold ok in Eok. apply andb_true_iff in Eok.
      destruct Eok as [H1 H2]. apply N.leb_le in H1, H2.
      split; [exact Hk|]. split; [exact Ef|].
      split; [split; assumption|]. split; [exact Eb | reflexivity].
  - intros (key & r & Hk & Ef & [H1 H2] & Eb & ->).
    rewrite (postStream_key key) by exact Hk. rewrite Ef.
    unfold ok. apply N.leb_le in H1, H2. rewrite H1, H2, Eb. reflexivity.
Qed.

(** X16.  The client never sends a request without the key: whatever happens,
    [post] and [postStream] send at most one request, and a request that
    they send is the POST to the endpoint with the JSON content type and
    the key in its Authorization header. *)
Theorem requests_carry_the_key (endpoint : jsstring) (payload : value) :
  let sent :=
    filter is_Fetch (fst (post env w endpoint payload)) in
  let sent' :=
    filter is_Fetch (fst (postStream env w endpoint payload)) in
  sent = sent' /\
  (sent = [] \/
   exists key,
     has_key env key /\
     sent = [Fetch (authorised_POST key endpoint payload)]).
Proof.
  cbv zeta. destruct key_cases as [Hn | [key Hk]].
  - rewrite post_no_key, postStream_no_key by exact Hn.
    split; [reflexivity | now left].
  - rewrite (post_key key), (postStream_key key) by exact Hk.
    destruct (fetch w _) as [r|x]; [destruct (ok r)|];
      unfold HTTP_error; try destruct (response_text r);
      (split; [reflexivity | right; exists key; now split]).
Qed.

Variable P : platform.

Lemma streamSpeech_async_key (key : jsstring) (text voiceId modelId : value)
  (sampleRate : Z) :
  has_key env key ->
  let req := authorised_POST key (lit "/voice:stream")
               (TTSStreamRequest text voiceId modelId sampleRate) in
  streamSpeech_async env w P text voiceId modelId sampleRate
  = match fetch w req with
    | Resolved r =>
        if ok r
        then match response_body r with
             | Some stream =>
                 ([Fetch req],
                  match streamSpeech P stream sampleRate with
                  | Ok out => Resolved out
                  | Throw e => Rejected (Exception e)
                  end)
             | None =>
                 ([Fetch req], Rejected (Error (lit "Response body is null")))
             end
        else HTTP_error req r
    | Rejected x => ([Fetch req], Rejected x)
    end.
Proof.
  intros Hk req. unfold streamSpeech_async.
  rewrite (postStream_key key) by exact Hk. fold req.
  destruct (fetch w req) as [r|x]; [|reflexivity].
  destruct (ok r); [|unfold HTTP_error; now destruct (response_text r)].
  destruct (response_body r) as [stream|]; [|reflexivity].
  unfold await.
  destruct (streamSpeech P stream sampleRate); reflexivity.
Qed.


Lemma writeAudioFile_cases (filePath : jsstring) (data : Buffer) :
  writeAudioFile w filePath data
  = match mkdir w (dirname w filePath) with
    | Resolved _ =>
        ([Mkdir (dirname w filePath); WriteFile filePath data],
         writeFile w filePath data)
    | Rejected x => ([Mkdir (dirname w filePath)], Rejected x)
    end.
Proof.
  unfold writeAudioFile, await.
  destruct (mkdir w (dirname w filePath)); [|reflexivity].
  now destruct (writeFile w filePath data).
Qed.

Lemma streamSpeech_Ok_wav (reads : list (list byte)) (sampleRate : Z)
  (out : output) :
  streamSpeech P reads sampleRate = Ok out ->
  hasWavHeader (audioBuffer out) = true /\
  little_endian (slice (audioBuffer out) 24 28) = sampleRate /\
  little_endian (slice (audioBuffer out) 40 44)
  = Z.of_nat (length (audioBuffer out)) - 44.
Proof.
  intros Hout. unfold streamSpeech in Hout.
  destruct (assembleWav _ sampleRate) as [W|e] eqn:EW; [|discriminate].
  cbn [bind] in Hout. apply Ok_inj in Hout. subst out. cbn [audioBuffer].
  apply assembleWav_inv in EW. destruct EW as (HD & HR & ->).
  match goal with
  | |- context [wav_header_bytes ?D sampleRate ++ ?data] =>
      destruct (header_fields D sampleRate data) as (_ & H2 & H3 & _);
        [lia | lia |]
  end.
  split; [reflexivity|]. split; [exact H3|].
  rewrite H2, length_app, wav_header_bytes_length. lia.
Qed.

(** X17.  No key, no request: when INWORLD_API_KEY is unset or empty, [post]
    and [postStream], and with them the two functions that write a file,
    are rejected with the message of [assertApiKey] before anything has
    been sent, made or written. *)
Theorem no_key_no_request
  (endpoint : jsstring) (payload text : value) (outputPath : jsstring)
  (voiceId modelId : value) :
  no_key env ->
  post env w endpoint payload = ([], Rejected (Error key_not_set)) /\
  postStream env w endpoint payload = ([], Rejected (Error key_not_set)) /\
  generateSpeechToFile env w P text outputPath voiceId modelId
  = ([], Rejected (Error key_not_set)) /\
  streamSpeechToFile env w P text outputPath voiceId modelId
  = ([], Rejected (Error key_not_set)).
Proof.
  intros H. split; [now apply post_no_key|].
  split; [now apply postStream_no_key|]. split.
  - unfold generateSpeechToFile, generateSpeech.
    now rewrite post_no_key.
  - unfold streamSpeechToFile, streamSpeech_async.
    now rewrite postStream_no_key.
Qed.

(** X18.  What [generateSpeech] resolves with is the decoded [audioContent]
    property of a 2xx JSON response, as it is: the response has to be an
    object that has the property, one request has been sent, and no header
    is stripped. *)
Theorem generateSpeech_resolves_iff
  (text voiceId modelId : value) (effects : list effect) (b : Buffer) :
  generateSpeech env w P text voiceId modelId = (effects, Resolved b) <->
  exists key r props audioContent,
    has_key env key /\
    fetch w (authorised_POST key (lit "/voice")
               (TTSRequest text voiceId modelId)) = Resolved r /\
    (200 <= status r <= 299)%N /\
    response_json r = Resolved (VObject props) /\
    lookup (lit "audioContent") props = Some audioContent /\
    decodeBase64 P audioContent = Ok b /\
    effects = [Fetch (authorised_POST key (lit "/voice")
                        (TTSRequest text voiceId modelId))].
Proof.
  unfold generateSpeech. split.
  - intros H. destruct key_cases as [Hn | [key Hk]].
    + rewrite post_no_key in H by exact Hn. discriminate.
    + rewrite (post_key key) in H by exact Hk.
      destruct (fetch w _) as [r|x] eqn:Ef; [|discriminate].
      destruct (ok r) eqn:Eok;
        [|unfold HTTP_error in H; destruct (response_text r); discriminate].
      destruct (response_json r) as [v|x] eqn:Ej; [|discriminate].
      unfold await in H.
      assert (Hv : exists props a,
                 v = VObject props /\
                 lookup (lit "audioContent") props = Some a /\
                 decodeBase64 P a = Ok b).
      { destruct v as [| |b0|m e|s0|elems|props];
          try (cbn in H; discriminate).
        exists props. cbn [get_property bind] in H.
        destruct (lookup (lit "audioContent") props) as [a|] eqn:El;
          [|cbn in H; discriminate].
        exists a. cbn [bind] in H.
        destruct (decodeBase64 P a) as [b'|e]; [|cbn in H; discriminate].
        apply (f_equal snd) in H. cbn in H. injection H as ->.
        now repeat split. }
      destruct Hv as (props & a & -> & El & Hd).
      cbn [get_property bind] in H. rewrite El in H. cbn [bind] in H.
      rewrite Hd in H. cbn in H.
      assert (He : effects
                   = [Fetch (authorised_POST key (lit "/voice")
                               (TTSRequest text voiceId modelId))])
        by (apply (f_equal fst) in H; symmetry; exact H).
      unfold ok in Eok. apply andb_true_iff in Eok.
      destruct Eok as [H1 H2]. apply N.leb_le in H1, H2.
      exists key, r, props, a.
      split; [exact Hk|]. split; [exact Ef|].
      split; [split; assumption|]. split; [exact Ej|].
      split; [exact El|]. split; [exact Hd | exact He].
  - intros (key & r & props & a & Hk & Ef & [H1 H2] & Ej & El & Hd & ->).
    rewrite (post_key key) by exact Hk. rewrite Ef.
    unfold ok. apply N.leb_le in H1, H2. rewrite H1, H2, Ej.
    cbn [andb await get_property bind]. rewrite El. cbn [bind].
    rewrite Hd. reflexivity.
Qed.

(** X19.  A file that [streamSpeechToFile] writes is written to the path asked
    for, after the request has been answered with a 2xx stream and
    [streamSpeech] has returned on it; what is written is the audio buffer,
    a WAV file whose header declares 48000 Hz, the default rate, and the
    length of what follows the header. *)
Theorem streamSpeechToFile_writes
  (text : value) (outputPath : jsstring) (voiceId modelId : value)
  (path : jsstring) (data : Buffer) :
  In (WriteFile path data)
     (fst (streamSpeechToFile env w P text outputPath voiceId modelId)) ->
  path = outputPath /\
  hasWavHeader data = true /\
  little_endian (slice data 24 28) = 48000 /\
  little_endian (slice data 40 44) = Z.of_nat (length data) - 44 /\
  exists key r stream out,
    has_key env key /\
    fetch w (authorised_POST key (lit "/voice:stream")
               (TTSStreamRequest text voiceId modelId 48000)) = Resolved r /\
    (200 <= status r <= 299)%N /\
    response_body r = Some stream /\
    streamSpeech P stream 48000 = Ok out /\
    data = audioBuffer out /\
    mkdir w (dirname w outputPath) = Resolved tt.
Proof.
  unfold streamSpeechToFile, config_defaults_sampleRate.
  intros H. destruct key_cases as [Hn | [key Hk]].
  - unfold streamSpeech_async in H.
    rewrite postStream_no_key in H by exact Hn. destruct H.
  - rewrite (streamSpeech_async_key key) in H by exact Hk. cbv zeta in H.
    destruct (fetch w _) as [r|x] eqn:Ef;
      [|cbn in H; destruct H as [H|[]]; discriminate].
    destruct (ok r) eqn:Eok.
    2:{ unfold HTTP_error in H. destruct (response_text r); cbn in H;
        repeat (destruct H as [H|H]; [discriminate|]); destruct H. }
    destruct (response_body r) as [stream|] eqn:Eb;
      [|cbn in H; destruct H as [H|[]]; discriminate].
    destruct (streamSpeech P stream 48000) as [out|e] eqn:Es;
      [|cbn in H; destruct H as [H|[]]; discriminate].
    unfold await at 1 in H. unfold await in H.
    rewrite writeAudioFile_cases in H.
    destruct (mkdir w (dirname w outputPath)) as [[]|x] eqn:Em;
      [|cbn in H; repeat (destruct H as [H|H]; [discriminate|]);
        destruct H].
    assert (Hw : WriteFile outputPath (audioBuffer out)
                 = WriteFile path data).
    { destruct (writeFile w outputPath (audioBuffer out)); cbn in H;
        destruct H as [H|[H|[H|[]]]]; try discriminate; exact H. }
    injection Hw as <- <-.
    destruct (streamSpeech_Ok_wav _ _ _ Es) as (Hh & Hr & Hl).
    split; [reflexivity|]. split; [exact Hh|]. split; [exact Hr|].
    split; [exact Hl|].
    unfold ok in Eok. apply andb_true_iff in Eok.
    destruct Eok as [H1 H2]. apply N.leb_le in H1, H2.
    exists key, r, stream, out.
    split; [exact Hk|]. split; [exact Ef|].
    split; [split; assumption|]. split; [exact Eb|].
    split; [exact Es|]. split; reflexivity.
Qed.

(** X20.  When the service answers with a status outside 200..299, both file
    writers are rejected with an error that names the status and the body
    of the answer; the answer is logged, and no directory is made and no
    file written. *)
Theorem upstream_error_reported
  (key : jsstring) (text : value) (outputPath : jsstring)
  (voiceId modelId : value) (r : response) (errorBody : jsstring) :
  has_key env key ->
  ok r = false ->
  response_text r = Resolved errorBody ->
  let report (A : Type) (q : request) : async A :=
    ([Fetch q;
      ConsoleError (lit "API Error [" ++ decimal (status r) ++ lit "]:")
        errorBody],
     Rejected (Error (lit "Inworld API returned " ++ decimal (status r)
                        ++ lit ": " ++ errorBody))) in
  let voice :=
    authorised_POST key (lit "/voice") (TTSRequest text voiceId modelId) in
  let voice_stream :=
    authorised_POST key (lit "/voice:stream")
      (TTSStreamRequest text voiceId modelId 48000) in
  (fetch w voice = Resolved r ->
   generateSpeechToFile env w P text outputPath voiceId modelId
   = report unit voice) /\
  (fetch w voice_stream = Resolved r ->
   streamSpeechToFile env w P text outputPath voiceId modelId
   = report StreamStats voice_stream).
Proof.
  intros Hk Hok Ht report voice voice_stream. split; intros Hf.
  - unfold generateSpeechToFile, generateSpeech.
    rewrite (post_key key) by exact Hk. fold voice. rewrite Hf, Hok.
    unfold HTTP_error. rewrite Ht. reflexivity.
  - unfold streamSpeechToFile, streamSpeech_async,
      config_defaults_sampleRate.
    rewrite (postStream_key key) by exact Hk. fold voice_stream.
    rewrite Hf, Hok. unfold HTTP_error. rewrite Ht. reflexivity.
Qed.

End ClientFacts.

(* ================================================================== *)
(** * The properties at work on the reference platform and the service *)
(* ================================================================== *)

(** C4 as stated fails: a response of 2^29 letters and no newline yields
    no chunk, and at the default sample rate [streamSpeech] raises at line
    77 instead of returning the header. *)
Lemma zero_chunks_long_line_raises :
  chunks (acc (streamSpeech_loop (node ticking) long_line)) = [] /\
  V8.streamSpeech (node ticking) long_line 48000
  = V8.Raises V8.StringTooLong.
Proof.
  assert (Hascii : forallb is_ascii_no_LF (concat long_line) = true).
  { unfold long_line. cbn [concat]. rewrite !forallb_app. cbn [forallb].
    assert (H : forall n, forallb is_ascii_no_LF (repeat x41 n) = true).
    { induction n as [|n IH]; [reflexivity|].
      cbn [repeat forallb]. now rewrite IH. }
    now rewrite !H. }
  split; [now apply long_line_no_chunk|].
  assert (Hfit : V8.fits (node ticking) long_line = false).
  { unfold V8.fits.
    apply (long_line_does_not_fit (node ticking) long_line
             initial_state false).
    - reflexivity.
    - intros [].
    - reflexivity.
    - exact Hascii.
    - unfold long_line. cbn [concat initial_state buffer].
      rewrite !length_app, !repeat_length. unfold V8.kMaxLength.
      cbn [length]. lia. }
  rewrite V8_streamSpeech_spec, Hfit. reflexivity.
Qed.

Lemma zero_chunks_header_only_witness :
  exists out : output,
    V8.streamSpeech (node ticking)
      [control_record ++ [x0a]; broken_record] 48000 = V8.Returns out /\
    audioBuffer out = wav_header_bytes 0 48000 /\
    length (audioBuffer out) = 44%nat /\
    little_endian (slice (audioBuffer out) 4 8) = 36 /\
    little_endian (slice (audioBuffer out) 40 44) = 0.
Proof.
  apply (zero_chunks_header_only (node ticking)
           [control_record ++ [x0a]; broken_record] 48000).
  - vm_compute. reflexivity.
  - vm_compute. reflexivity.
  - lia.
Defined.

Lemma assembleWav_canonical_witness :
  let W := wav_header_bytes 5 48000 ++ pcm 5 in
  hasWavHeader W = true /\
  slice W 0 4 = list_byte_of_string "RIFF" /\
  slice W 8 16 = list_byte_of_string "WAVEfmt " /\
  little_endian (slice W 16 20) = 16 /\
  little_endian (slice W 20 22) = 1 /\
  little_endian (slice W 22 24) = 1 /\
  little_endian (slice W 32 34) = 2 /\
  little_endian (slice W 34 36) = 16 /\
  slice W 36 40 = list_byte_of_string "data" /\
  skipn 44 W = Buffer_concat [pcm 2; pcm 3].
Proof.
  apply (assembleWav_canonical [pcm 2; pcm 3] 48000
           (wav_header_bytes 5 48000 ++ pcm 5)).
  vm_compute. reflexivity.
Defined.

Lemma stripWavHeader_assembleWav_witness :
  stripWavHeader (wav_header_bytes 5 48000 ++ pcm 5) = pcm 5.
Proof.
  apply (stripWavHeader_assembleWav [pcm 2; pcm 3] 48000
           (wav_header_bytes 5 48000 ++ pcm 5)).
  vm_compute. reflexivity.
Defined.

(** A stereo header at 44100 Hz for 1000 bytes of data. *)
Lemma createWavHeader_fields_witness :
  exists h : Buffer,
    createWavHeader 1000 44100 2 16 = Ok h /\
    length h = 44%nat /\
    little_endian (slice h 4 8) = 36 + 1000 /\
    little_endian (slice h 22 24) = 2 /\
    little_endian (slice h 24 28) = 44100 /\
    little_endian (slice h 32 34) = 2 * 16 / 8 /\
    little_endian (slice h 28 32) = 44100 * little_endian (slice h 32 34) /\
    little_endian (slice h 34 36) = 16 /\
    little_endian (slice h 40 44) = 1000.
Proof.
  eexists. split; [vm_compute; reflexivity|].
  apply (createWavHeader_fields 1000 44100 2 16).
  - exists 4. reflexivity.
  - vm_compute. reflexivity.
Defined.


(** A truncated record and two bytes that are not UTF-8 between the same
    two records. *)
Lemma lines_are_isolated_witness :
  exists (line line' : jsstring) (before after : list jsstring),
    received_lines ((audio_AAEC ++ [x0a]) ++ (broken_record ++ [x0a])
                      ++ audio_BAUG ++ [x0a])
    = before ++ line :: after /\
    received_lines ((audio_AAEC ++ [x0a]) ++ ([xff; xfe] ++ [x0a])
                      ++ audio_BAUG ++ [x0a])
    = before ++ line' :: after /\
    before = received_lines (audio_AAEC ++ [x0a]) /\
    received_lines ((audio_AAEC ++ [x0a]) ++ audio_BAUG ++ [x0a])
    = before ++ after.
Proof.
  apply (lines_are_isolated audio_AAEC broken_record [xff; xfe]
           (audio_BAUG ++ [x0a])).
  - vm_compute. intuition discriminate.
  - vm_compute. intuition discriminate.
Defined.

Lemma blank_line_ignored_witness :
  chunks (acc (streamSpeech_loop (node ticking)
                 [audio_AAEC ++ [x0a]; [x20; x0d; x0a];
                  audio_BAUG ++ [x0a]]))
  = chunks (acc (streamSpeech_loop (node ticking)
                   [audio_AAEC ++ [x0a]; audio_BAUG ++ [x0a]])) /\
  warnings (acc (streamSpeech_loop (node ticking)
                   [audio_AAEC ++ [x0a]; [x20; x0d; x0a];
                    audio_BAUG ++ [x0a]]))
  = warnings (acc (streamSpeech_loop (node ticking)
                     [audio_AAEC ++ [x0a]; audio_BAUG ++ [x0a]])).
Proof.
  apply (blank_line_ignored (node ticking)
           [audio_AAEC ++ [x0a]; [x20; x0d; x0a]; audio_BAUG ++ [x0a]]
           [audio_AAEC ++ [x0a]; audio_BAUG ++ [x0a]]
           audio_AAEC [x20; x0d] (audio_BAUG ++ [x0a])).
  - vm_compute. reflexivity.
  - vm_compute. reflexivity.
  - reflexivity.
Defined.

Lemma streamSpeech_result_witness :
  exists out : output,
    streamSpeech (node ticking)
      [audio_AAEC ++ [x0a] ++ broken_record;
       [x0a] ++ audio_BAUG ++ [x0a]] 48000 = Ok out /\
    (let data :=
       Buffer_concat
         (flat_map (pushed (node ticking))
            (received_lines
               (concat [audio_AAEC ++ [x0a] ++ broken_record;
                        [x0a] ++ audio_BAUG ++ [x0a]]))) in
     audioBuffer out
     = wav_header_bytes (Z.of_nat (length data)) 48000 ++ data /\
     hasWavHeader (audioBuffer out) = true /\
     little_endian (slice (audioBuffer out) 40 44)
     = Z.of_nat (length data) /\
     little_endian (slice (audioBuffer out) 24 28) = 48000 /\
     length (audioBuffer out) = (44 + length data)%nat).
Proof.
  eexists. split; [vm_compute; reflexivity|].
  apply (streamSpeech_result (node ticking)
           [audio_AAEC ++ [x0a] ++ broken_record;
            [x0a] ++ audio_BAUG ++ [x0a]] 48000).
  vm_compute. reflexivity.
Defined.


Lemma no_key_no_request_witness :
  post Service.key_empty (Service.answering (Service.json VNull))
    (lit "/voice") (TTSRequest Service.hello Service.voice Service.model)
  = ([], Rejected (Error key_not_set)) /\
  postStream Service.key_empty (Service.answering (Service.json VNull))
    (lit "/voice") (TTSRequest Service.hello Service.voice Service.model)
  = ([], Rejected (Error key_not_set)) /\
  generateSpeechToFile Service.key_empty
    (Service.answering (Service.json VNull)) (node ticking)
    Service.hello (lit "out/hello.mp3") Service.voice Service.model
  = ([], Rejected (Error key_not_set)) /\
  streamSpeechToFile Service.key_empty
    (Service.answering (Service.json VNull)) (node ticking)
    Service.hello (lit "out/hello.mp3") Service.voice Service.model
  = ([], Rejected (Error key_not_set)).
Proof.
  apply (no_key_no_request Service.key_empty
           (Service.answering (Service.json VNull)) (node ticking)).
  right. reflexivity.
Defined.

(** The service streams one record of three bytes; the file written is the
    header and these bytes, at [out/hello.wav]. *)
Lemma streamSpeechToFile_writes_witness :
  let env := Service.key_set in
  let w := Service.answering (Service.streaming [audio_AAEC ++ [x0a]]) in
  let data := wav_header_bytes 3 48000 ++ [x00; x01; x02] in
  lit "out/hello.wav" = lit "out/hello.wav" /\
  hasWavHeader data = true /\
  little_endian (slice data 24 28) = 48000 /\
  little_endian (slice data 40 44) = Z.of_nat (length data) - 44 /\
  exists key r stream out,
    has_key env key /\
    fetch w (authorised_POST key (lit "/voice:stream")
               (TTSStreamRequest Service.hello Service.voice Service.model
                  48000))
    = Resolved r /\
    (200 <= status r <= 299)%N /\
    response_body r = Some stream /\
    streamSpeech (node ticking) stream 48000 = Ok out /\
    data = audioBuffer out /\
    mkdir w (dirname w (lit "out/hello.wav")) = Resolved tt.
Proof.
  apply (streamSpeechToFile_writes Service.key_set
           (Service.answering (Service.streaming [audio_AAEC ++ [x0a]]))
           (node ticking) Service.hello (lit "out/hello.wav")
           Service.voice Service.model (lit "out/hello.wav")
           (wav_header_bytes 3 48000 ++ [x00; x01; x02])).
  vm_compute. right. right. left. reflexivity.
Defined.

Lemma upstream_error_reported_witness :
  let env := Service.key_set in
  let w := Service.answering Service.unauthorized in
  let report (A : Type) (q : request) : async A :=
    ([Fetch q;
      ConsoleError (lit "API Error [401]:") (lit "invalid credentials")],
     Rejected (Error (lit "Inworld API returned 401: invalid credentials")))
  in
  generateSpeechToFile env w (node ticking) Service.hello
    (lit "out/hello.wav") Service.voice Service.model
  = report unit
      (authorised_POST (lit "a2V5OnNlY3JldA==") (lit "/voice")
         (TTSRequest Service.hello Service.voice Service.model)) /\
  streamSpeechToFile env w (node ticking) Service.hello
    (lit "out/hello.wav") Service.voice Service.model
  = report StreamStats
      (authorised_POST (lit "a2V5OnNlY3JldA==") (lit "/voice:stream")
         (TTSStreamRequest Service.hello Service.voice Service.model
            48000)).
Proof.
  cbv zeta.
  assert (Hk : has_key Service.key_set (lit "a2V5OnNlY3JldA=="))
    by (split; [reflexivity | vm_compute; discriminate]).
  destruct (upstream_error_reported Service.key_set
              (Service.answering Service.unauthorized) (node ticking)
              (lit "a2V5OnNlY3JldA==") Service.hello (lit "out/hello.wav")
              Service.voice Service.model Service.unauthorized
              (lit "invalid credentials") Hk eq_refl eq_refl) as [H1 H2].
  split.
  - etransitivity; [exact (H1 eq_refl) | vm_compute; reflexivity].
  - etransitivity; [exact (H2 eq_refl) | vm_compute; reflexivity].
Defined.

Lemma postStream_resolves_iff_witness :
  postStream Service.key_set
    (Service.answering (Service.streaming [audio_AAEC; [x0a]]))
    (lit "/voice:stream")
    (TTSStreamRequest Service.hello Service.voice Service.model 48000)
  = ([Fetch (authorised_POST (lit "a2V5OnNlY3JldA==") (lit "/voice:stream")
               (TTSStreamRequest Service.hello Service.voice Service.model
                  48000))],
     Resolved [audio_AAEC; [x0a]]).
Proof.
  apply (proj2 (postStream_resolves_iff Service.key_set
                  (Service.answering (Service.streaming [audio_AAEC; [x0a]]))
                  (lit "/voice:stream")
                  (TTSStreamRequest Service.hello Service.voice
                     Service.model 48000)
                  _ [audio_AAEC; [x0a]])).
  exists (lit "a2V5OnNlY3JldA=="), (Service.streaming [audio_AAEC; [x0a]]).
  split; [split; [reflexivity | vm_compute; discriminate]|].
  split; [reflexivity|]. split; [cbn; lia|]. split; reflexivity.
Defined.

(** The service answers with three bytes in base64, which come back as
    they are. *)
Lemma generateSpeech_resolves_iff_witness :
  generateSpeech Service.key_set
    (Service.answering
       (Service.json (VObject [(lit "audioContent", VString (lit "AAEC"))])))
    (node ticking) Service.hello Service.voice Service.model
  = ([Fetch (authorised_POST (lit "a2V5OnNlY3JldA==") (lit "/voice")
               (TTSRequest Service.hello Service.voice Service.model))],
     Resolved [x00; x01; x02]).
Proof.
  apply (proj2 (generateSpeech_resolves_iff Service.key_set
                  (Service.answering
                     (Service.json
                        (VObject [(lit "audioContent",
                                   VString (lit "AAEC"))])))
                  (node ticking) Service.hello Service.voice Service.model
                  _ [x00; x01; x02])).
  exists (lit "a2V5OnNlY3JldA=="),
    (Service.json (VObject [(lit "audioContent", VString (lit "AAEC"))])),
    [(lit "audioContent", VString (lit "AAEC"))], (VString (lit "AAEC")).
  split; [split; [reflexivity | vm_compute; discriminate]|].
  split; [reflexivity|]. split; [cbn; lia|]. split; [reflexivity|].
  split; [vm_compute; reflexivity|]. split; [vm_compute; reflexivity|].
  reflexivity.
Defined.
